(** * WClaw signal pipeline: title parsing, ensemble probabilities,
      consensus, edge selection and Kelly sizing

    A shallow embedding of the TypeScript sources

      - [src/weather/probability.ts]  (bucket / above / below probabilities)
      - [src/market/parser.ts]        (regex driven title parsing)
      - [src/engine/consensus.ts]     (multi-model consensus)
      - [src/engine/edge.ts]          (edge selection)
      - [src/engine/sizing.ts]        (fractional Kelly sizing)
      - [src/engine/signals.ts]       (the orchestrating loop)
      - [src/engine/risk.ts]          (circuit breaker)
      - [src/market/execution.ts]     (paper execution)
      - [src/settlement/tracker.ts]   (settlement of open positions)
      - [src/weather/ensemble.ts], [src/weather/ecmwf.ts]
                                      (parsing of ensemble responses)
      - [src/engine/backtest.ts]      (synthetic brackets and simulated trades)
      - [src/index.ts]                (risk gate and execution loop of a cycle)

    JavaScript numbers are modelled in exact arithmetic: a finite number is
    a rational, and the three special values [NaN], [+Infinity] and
    [-Infinity] behave as IEEE 754 prescribes.  Rounding of binary64 is not
    modelled, and there is a single zero (a quotient [x / 0] takes the sign
    of [x], as it does for the positive zero of JavaScript).

    JavaScript strings are sequences of UTF-16 code units. *)

From Stdlib Require Import QArith ZArith List Lia Lqa Qround Bool.
From Stdlib Require Import Ascii String DecimalString.
From stdpp Require Import gmap.
Import ListNotations.

Local Open Scope Q_scope.

(* ===================================================================== *)
(** ** JavaScript numbers *)
(* ===================================================================== *)

Inductive num : Type :=
| NaN
| NInf
| Fin (q : Q)
| PInf.

Declare Scope num_scope.
Delimit Scope num_scope with num.
Bind Scope num_scope with num.

Module Num.

Definition of_Z (z : Z) : num := Fin (inject_Z z).
Definition of_nat (n : nat) : num := of_Z (Z.of_nat n).

Definition zero : num := Fin 0.
Definition one : num := Fin 1.

(** Sign of a rational as a comparison with zero. *)
Definition sgn (q : Q) : comparison := 0 ?= q.

Definition opp (a : num) : num :=
  match a with
  | NaN => NaN
  | NInf => PInf
  | PInf => NInf
  | Fin q => Fin (- q)
  end.

Definition add (a b : num) : num :=
  match a, b with
  | NaN, _ | _, NaN => NaN
  | PInf, NInf | NInf, PInf => NaN
  | PInf, _ | _, PInf => PInf
  | NInf, _ | _, NInf => NInf
  | Fin p, Fin q => Fin (p + q)
  end.

Definition sub (a b : num) : num := add a (opp b).

(** An infinity times a finite factor: the sign follows the factor, and a
    zero factor gives [NaN]. *)
Definition inf_times (positive : bool) (q : Q) : num :=
  match sgn q with
  | Eq => NaN
  | Lt => if positive then PInf else NInf
  | Gt => if positive then NInf else PInf
  end.

Definition mul (a b : num) : num :=
  match a, b with
  | NaN, _ | _, NaN => NaN
  | PInf, PInf | NInf, NInf => PInf
  | PInf, NInf | NInf, PInf => NInf
  | PInf, Fin q | Fin q, PInf => inf_times true q
  | NInf, Fin q | Fin q, NInf => inf_times false q
  | Fin p, Fin q => Fin (p * q)
  end.

(** Division.  A finite quotient with a zero divisor is an infinity of the
    sign of the dividend, and [0 / 0] is [NaN]. *)
Definition div (a b : num) : num :=
  match a, b with
  | NaN, _ | _, NaN => NaN
  | (PInf | NInf), (PInf | NInf) => NaN
  | PInf, Fin q => match sgn q with Gt => NInf | _ => PInf end
  | NInf, Fin q => match sgn q with Gt => PInf | _ => NInf end
  | Fin _, (PInf | NInf) => Fin 0
  | Fin p, Fin q =>
      match sgn q with
      | Eq => inf_times true p
      | _ => Fin (p / q)
      end
  end.

(** Comparisons: every comparison with [NaN] is false. *)
Definition ltb (a b : num) : bool :=
  match a, b with
  | NaN, _ | _, NaN => false
  | _, NInf => false
  | NInf, _ => true
  | PInf, _ => false
  | _, PInf => true
  | Fin p, Fin q => negb (Qle_bool q p)
  end.

Definition leb (a b : num) : bool :=
  match a, b with
  | NaN, _ | _, NaN => false
  | NInf, _ => true
  | _, NInf => false
  | _, PInf => true
  | PInf, _ => false
  | Fin p, Fin q => Qle_bool p q
  end.

Definition gtb (a b : num) : bool := ltb b a.
Definition geb (a b : num) : bool := leb b a.

(** Strict equality [===] on numbers. *)
Definition eqb (a b : num) : bool :=
  match a, b with
  | NInf, NInf | PInf, PInf => true
  | Fin p, Fin q => Qeq_bool p q
  | _, _ => false
  end.

(** [Math.floor], [Math.min] and [Math.max]. *)
Definition floor (a : num) : num :=
  match a with
  | Fin q => of_Z (Qfloor q)
  | _ => a
  end.

Definition min (a b : num) : num :=
  match a, b with
  | NaN, _ | _, NaN => NaN
  | _, _ => if leb a b then a else b
  end.

Definition max (a b : num) : num :=
  match a, b with
  | NaN, _ | _, NaN => NaN
  | _, _ => if leb a b then b else a
  end.

(** Two numbers denote the same value. *)
Definition eq (a b : num) : Prop :=
  match a, b with
  | NaN, NaN | NInf, NInf | PInf, PInf => True
  | Fin p, Fin q => p == q
  | _, _ => False
  end.

(** The order of the extended rationals, as propositions. *)
Inductive le : num -> num -> Prop :=
| le_fin p q : p <= q -> le (Fin p) (Fin q)
| le_ninf b : b <> NaN -> le NInf b
| le_pinf a : a <> NaN -> le a PInf.

Inductive lt : num -> num -> Prop :=
| lt_fin p q : p < q -> lt (Fin p) (Fin q)
| lt_ninf_fin q : lt NInf (Fin q)
| lt_fin_pinf p : lt (Fin p) PInf
| lt_ninf_pinf : lt NInf PInf.

Definition is_nan (a : num) : bool :=
  match a with NaN => true | _ => false end.

Definition finite (a : num) : Prop :=
  match a with Fin _ => True | _ => False end.

End Num.

Infix "+" := Num.add : num_scope.
Infix "-" := Num.sub : num_scope.
Infix "*" := Num.mul : num_scope.
Infix "/" := Num.div : num_scope.
Infix "<?" := Num.ltb : num_scope.
Infix "<=?" := Num.leb : num_scope.
Infix ">?" := Num.gtb : num_scope.
Infix ">=?" := Num.geb : num_scope.
Infix "=?" := Num.eqb : num_scope.
Infix "==" := Num.eq : num_scope.
Infix "<=" := Num.le : num_scope.
Infix "<" := Num.lt : num_scope.

(* ===================================================================== *)
(** ** Ensemble probabilities ([src/weather/probability.ts]) *)
(* ===================================================================== *)

(** A JavaScript string, as its UTF-16 code units. *)
Definition jsstring : Type := list N.

Inductive Metric : Type := high | low.
Inductive BracketType : Type := above | below | between.

Record DailyForecast : Type := mkDailyForecast {
  df_date : jsstring;
  highs : list num;
  lows : list num
}.

Record EnsembleForecast : Type := mkEnsembleForecast {
  ef_city : jsstring;
  fetchedAt : num;
  daily : list DailyForecast
}.

Record BucketProbability : Type := mkBucketProbability {
  bp_city : jsstring;
  bp_date : jsstring;
  bp_metric : Metric;
  bp_bracketMin : num;
  bp_bracketMax : num;
  probability : num;
  memberCount : nat
}.

(** [metric === "high" ? forecast.highs : forecast.lows] *)
Definition temps_of (forecast : DailyForecast) (metric : Metric) : list num :=
  match metric with
  | high => highs forecast
  | low => lows forecast
  end.

Definition calcBucketProbability (forecast : DailyForecast) (metric : Metric)
    (bracketMin bracketMax : num) : BucketProbability :=
  let temps := temps_of forecast metric in
  let total := length temps in
  if Nat.eqb total 0 then
    {| bp_city := []; bp_date := df_date forecast; bp_metric := metric;
       bp_bracketMin := bracketMin; bp_bracketMax := bracketMax;
       probability := Fin 0; memberCount := 0 |}
  else
    let inBucket :=
      length (List.filter (fun t => (t >=? bracketMin)%num && (t <? bracketMax)%num) temps) in
    {| bp_city := []; bp_date := df_date forecast; bp_metric := metric;
       bp_bracketMin := bracketMin; bp_bracketMax := bracketMax;
       probability := (Num.of_nat inBucket / Num.of_nat total)%num;
       memberCount := inBucket |}.

Definition calcAboveProbability (forecast : DailyForecast) (metric : Metric)
    (threshold : num) : num :=
  let temps := temps_of forecast metric in
  if Nat.eqb (length temps) 0 then Fin 0
  else (Num.of_nat (length (List.filter (fun t => (t >=? threshold)%num) temps))
        / Num.of_nat (length temps))%num.

Definition calcBelowProbability (forecast : DailyForecast) (metric : Metric)
    (threshold : num) : num :=
  let temps := temps_of forecast metric in
  if Nat.eqb (length temps) 0 then Fin 0
  else (Num.of_nat (length (List.filter (fun t => (t <? threshold)%num) temps))
        / Num.of_nat (length temps))%num.

Definition jsstring_eqb (a b : jsstring) : bool := bool_decide (a = b).

(** [ensemble.daily.find((d) => d.date === date)] followed by the dispatch
    on the bracket type; [None] is the source's [null]. *)
Definition getModelProbability (ensemble : EnsembleForecast) (date : jsstring)
    (metric : Metric) (bracketType : BracketType) (bracketMin bracketMax : num)
    : option num :=
  match List.find (fun d => jsstring_eqb (df_date d) date) (daily ensemble) with
  | None => None
  | Some day =>
      match bracketType with
      | above => Some (calcAboveProbability day metric bracketMin)
      | below => Some (calcBelowProbability day metric bracketMax)
      | between => Some (probability (calcBucketProbability day metric bracketMin bracketMax))
      end
  end.

(** [Counts P l n]: exactly [n] positions of [l] hold an element satisfying
    [P] (the specification side of the member count). *)
Inductive Counts {A : Type} (P : A -> Prop) : list A -> nat -> Prop :=
| Counts_nil : Counts P [] 0
| Counts_in a l n : P a -> Counts P l n -> Counts P (a :: l) (S n)
| Counts_out a l n : ~ P a -> Counts P l n -> Counts P (a :: l) n.

(** Membership of a value in the half-open bracket [[bmin, bmax)]. *)
Definition in_bracket (bmin bmax v : num) : Prop :=
  (bmin <= v)%num /\ (v < bmax)%num.

(* ===================================================================== *)
(** ** Markets, positions and configuration ([src/types.ts]) *)
(* ===================================================================== *)

Record MarketToken : Type := mkMarketToken {
  tokenId : jsstring;
  outcome : jsstring;
  price : num
}.

Record RawMarket : Type := mkRawMarket {
  raw_conditionId : jsstring;
  questionId : jsstring;
  raw_title : jsstring;
  slug : jsstring;
  outcomes : list jsstring;
  outcomePrices : list jsstring;
  tokens : list MarketToken;
  raw_volume : num;
  raw_endDateIso : jsstring;
  active : bool;
  closed : bool
}.

Record ParsedMarket : Type := mkParsedMarket {
  conditionId : jsstring;
  title : jsstring;
  city : jsstring;
  date : jsstring;
  metric : Metric;
  bracketMin : num;
  bracketMax : num;
  bracketType : BracketType;
  yesTokenId : jsstring;
  noTokenId : jsstring;
  yesPrice : num;
  noPrice : num;
  volume : num;
  endDateIso : jsstring
}.

Inductive Side : Type := YES | NO.

Inductive ConfidenceTier : Type := LOCK | STRONG | SAFE | NEAR_SAFE | SKIP.

Inductive PositionStatus : Type := st_open | st_won | st_lost | st_expired.

Record Position : Type := mkPosition {
  pos_id : jsstring;
  pos_signalId : jsstring;
  pos_conditionId : jsstring;
  pos_city : jsstring;
  pos_date : jsstring;
  pos_metric : Metric;
  pos_bracketMin : num;
  pos_bracketMax : num;
  pos_bracketType : BracketType;
  pos_side : Side;
  entryPrice : num;
  pos_size : num;
  potentialPayout : num;
  pos_modelProbability : num;
  pos_edge : num;
  status : PositionStatus;
  entryTime : num;
  settleTime : option num;
  actualTemp : option num;
  pnl : option num;
  orderId : option jsstring
}.

Inductive Mode : Type := paper | live.

Record AppConfig : Type := mkAppConfig {
  mode : Mode;
  bankrollUsdc : num;
  maxPositionPct : num;
  minEdgePct : num;
  kellyFraction : num;
  maxOpenPositions : num;
  polygonPrivateKey : option jsstring;
  polymarketApiKey : option jsstring;
  polymarketApiSecret : option jsstring;
  polymarketApiPassphrase : option jsstring
}.

(** What the host gives to one run: the clock reading of [Date.now()], the
    calendar year of [new Date().getFullYear()], the successive results of
    [crypto.randomUUID()], and two built-in functions, the parser
    [new Date(s).getTime()] of date strings and
    [String.prototype.toLowerCase]. *)
Record Host : Type := mkHost {
  Date_now : num;
  Date_fullYear : N;
  randomUUID : nat -> jsstring;
  Date_getTime : jsstring -> num;
  toLowerCase : jsstring -> jsstring
}.

(** Decimal literals of the sources. *)
Definition lit (n : Z) (d : positive) : num := Fin (n # d).

(* ===================================================================== *)
(** ** Edge selection ([src/engine/edge.ts]) *)
(* ===================================================================== *)

Record EdgeResult : Type := mkEdgeResult {
  er_market : ParsedMarket;
  er_modelProbability : num;
  er_marketPrice : num;
  er_edge : num;
  er_side : Side;
  er_effectivePrice : num
}.

Definition calculateEdge (market : ParsedMarket) (ensemble : EnsembleForecast)
    : option EdgeResult :=
  match getModelProbability ensemble (date market) (metric market)
          (bracketType market) (bracketMin market) (bracketMax market) with
  | None => None
  | Some modelProb =>
      let yesPrice := yesPrice market in
      let noPrice := noPrice market in
      let yesEdge := (modelProb - yesPrice)%num in
      let noEdge := ((Num.one - modelProb) - noPrice)%num in
      if (yesEdge >=? noEdge)%num && (yesEdge >? Num.zero)%num then
        Some {| er_market := market; er_modelProbability := modelProb;
                er_marketPrice := yesPrice; er_edge := yesEdge;
                er_side := YES; er_effectivePrice := yesPrice |}
      else if (noEdge >? Num.zero)%num then
        Some {| er_market := market;
                er_modelProbability := (Num.one - modelProb)%num;
                er_marketPrice := noPrice; er_edge := noEdge;
                er_side := NO; er_effectivePrice := noPrice |}
      else None
  end.

(* ===================================================================== *)
(** ** Fractional Kelly sizing ([src/engine/sizing.ts]) *)
(* ===================================================================== *)

Record Sizing : Type := mkSizing {
  rawKelly : num;
  adjustedKelly : num;
  size : num
}.

Definition kellySize (modelProbability effectivePrice bankroll : num)
    (config : AppConfig) : Sizing :=
  let p := modelProbability in
  let q := (Num.one - p)%num in
  let b := ((Num.one - effectivePrice) / effectivePrice)%num in
  if (b <=? Num.zero)%num then
    {| rawKelly := Num.zero; adjustedKelly := Num.zero; size := Num.zero |}
  else
    let rawKelly := ((b * p - q) / b)%num in
    if (rawKelly <=? Num.zero)%num then
      {| rawKelly := rawKelly; adjustedKelly := Num.zero; size := Num.zero |}
    else
      let adjustedKelly := (rawKelly * kellyFraction config)%num in
      let cappedKelly := Num.min adjustedKelly (maxPositionPct config) in
      let size :=
        (Num.floor (cappedKelly * bankroll * Num.of_Z 100) / Num.of_Z 100)%num in
      {| rawKelly := rawKelly; adjustedKelly := cappedKelly;
         size := Num.max size Num.zero |}.

(* ===================================================================== *)
(** ** Multi-model consensus ([src/engine/consensus.ts]) *)
(* ===================================================================== *)

Record ConsensusResult : Type := mkConsensusResult {
  gfsProbability : num;
  ecmwfProbability : option num;
  cr_nwsHigh : option num;
  consensusProbability : num;
  confidence : ConfidenceTier;
  modelsAgreeing : nat;
  kellyMultiplier : num
}.

(** The NWS point forecast check: [null] unless a point forecast is given and
    the metric is ["high"]. *)
Definition nwsInBracket (nwsHigh : option num) (metric : Metric)
    (bracketType : BracketType) (bracketMin bracketMax : num) : option bool :=
  match nwsHigh, metric with
  | Some h, high =>
      Some match bracketType with
           | above => (h >=? bracketMin)%num
           | below => (h <? bracketMax)%num
           | between => (h >=? bracketMin)%num && (h <? bracketMax)%num
           end
  | _, _ => None
  end.

Definition probThreshold : num := lit 5 10.

(** The tier cascade at the end of [calculateConsensus]. *)
Definition tierOf (totalModels : nat) (agreementRatio : num)
    : ConfidenceTier * num :=
  if (2 <=? totalModels)%nat && (agreementRatio =? lit 10 10)%num then
    (LOCK, lit 15 10)
  else if (2 <=? totalModels)%nat && (agreementRatio >=? lit 66 100)%num then
    (STRONG, lit 12 10)
  else if (totalModels =? 1)%nat then
    (SAFE, lit 10 10)
  else if (agreementRatio >=? lit 5 10)%num then
    (NEAR_SAFE, lit 7 10)
  else
    (SKIP, Num.zero).

Definition calculateConsensus (gfsEnsemble : EnsembleForecast)
    (ecmwfEnsemble : option EnsembleForecast) (nwsHigh : option num)
    (date : jsstring) (metric : Metric) (bracketType : BracketType)
    (bracketMin bracketMax : num) : option ConsensusResult :=
  match getModelProbability gfsEnsemble date metric bracketType bracketMin bracketMax with
  | None => None
  | Some gfsProb =>
      let ecmwfProb :=
        match ecmwfEnsemble with
        | Some e => getModelProbability e date metric bracketType bracketMin bracketMax
        | None => None
        end in
      let nws := nwsInBracket nwsHigh metric bracketType bracketMin bracketMax in
      (* Count agreeing models *)
      let gfsVote := (gfsProb >=? probThreshold)%num in
      let modelsAgreeing := 1%nat in
      let modelsAgreeing :=
        match ecmwfProb with
        | Some e =>
            if Bool.eqb (e >=? probThreshold)%num gfsVote
            then S modelsAgreeing else modelsAgreeing
        | None => modelsAgreeing
        end in
      let modelsAgreeing :=
        match nws with
        | Some inBracket =>
            if Bool.eqb inBracket gfsVote then S modelsAgreeing else modelsAgreeing
        | None => modelsAgreeing
        end in
      (* Weighted average *)
      let consensusProb := (gfsProb * lit 10 10)%num in
      let totalWeight := (Num.zero + lit 10 10)%num in
      let '(consensusProb, totalWeight) :=
        match ecmwfProb with
        | Some e => ((consensusProb + e * lit 12 10)%num,
                     (totalWeight + lit 12 10)%num)
        | None => (consensusProb, totalWeight)
        end in
      let consensusProb := (consensusProb / totalWeight)%num in
      (* Confidence tier and Kelly multiplier *)
      let totalModels :=
        (1 + (match ecmwfProb with Some _ => 1 | None => 0 end)
           + (match nws with Some _ => 1 | None => 0 end))%nat in
      let agreementRatio := (Num.of_nat modelsAgreeing / Num.of_nat totalModels)%num in
      let '(confidence, kellyMultiplier) := tierOf totalModels agreementRatio in
      Some {| gfsProbability := gfsProb;
              ecmwfProbability := ecmwfProb;
              cr_nwsHigh := nwsHigh;
              consensusProbability := consensusProb;
              confidence := confidence;
              modelsAgreeing := modelsAgreeing;
              kellyMultiplier := kellyMultiplier |}
  end.

(* ===================================================================== *)
(** ** Signal generation ([src/engine/signals.ts]) *)
(* ===================================================================== *)

Record Signal : Type := mkSignal {
  sig_id : jsstring;
  sig_market : ParsedMarket;
  sig_modelProbability : num;
  sig_marketPrice : num;
  sig_edge : num;
  sig_side : Side;
  sig_size : num;
  sig_kelly : num;
  sig_confidence : ConfidenceTier;
  createdAt : num
}.

Definition MIN_VOLUME : num := Num.of_Z 1000.
Definition MIN_HOURS_TO_SETTLE : num := Num.of_Z 2.

(** [===] on confidence labels. *)
Definition tier_eqb (a b : ConfidenceTier) : bool :=
  match a, b with
  | LOCK, LOCK | STRONG, STRONG | SAFE, SAFE | NEAR_SAFE, NEAR_SAFE | SKIP, SKIP => true
  | _, _ => false
  end.

Definition getConfidence (edge : num) (consensusConfidence : option ConfidenceTier)
    : ConfidenceTier :=
  if (match consensusConfidence with Some c => tier_eqb c LOCK | None => false end)
     || (edge >=? lit 25 100)%num then LOCK
  else if (match consensusConfidence with Some c => tier_eqb c STRONG | None => false end)
     || (edge >=? lit 15 100)%num then STRONG
  else if (edge >=? lit 10 100)%num then SAFE
  else NEAR_SAFE.

(** [new Set(openPositions.filter((p) => p.status === "open").map((p) => p.conditionId))] *)
Definition openConditionIds (openPositions : list Position) : gset jsstring :=
  list_to_set
    (List.map pos_conditionId
       (List.filter (fun p => match status p with st_open => true | _ => false end)
          openPositions)).

(** Integer literals of the sources. *)
Definition int (n : Z) : num := Num.of_Z n.

(** The body of the loop of [generateSignals] for one market: [None] is a
    [continue], and [uuid] is the identifier that [crypto.randomUUID()]
    returns if the signal is built. *)
Definition signalFor (host : Host) (config : AppConfig)
    (openIds : gset jsstring)
    (gfsEnsembles : gmap jsstring EnsembleForecast)
    (ecmwfEnsembles : option (gmap jsstring EnsembleForecast))
    (market : ParsedMarket) (uuid : jsstring) : option Signal :=
  let minEdge := (minEdgePct config / Num.of_Z 100)%num in
  let bankroll := bankrollUsdc config in
  let now := Date_now host in
  if bool_decide (conditionId market ∈ openIds) then None
  else if (volume market <? MIN_VOLUME)%num then None
  else
    let endTime := Date_getTime host (endDateIso market) in
    if (endTime - now <? MIN_HOURS_TO_SETTLE * int 60 * int 60 * int 1000)%num then None
    else
      let marketDate := Date_getTime host (date market) in
      if (marketDate - now >? int 7 * int 24 * int 60 * int 60 * int 1000)%num then None
      else
        match gfsEnsembles !! city market with
        | None => None
        | Some gfsEnsemble =>
            let ecmwfEnsemble :=
              match ecmwfEnsembles with
              | Some m => m !! city market
              | None => None
              end in
            match calculateConsensus gfsEnsemble ecmwfEnsemble None
                    (date market) (metric market) (bracketType market)
                    (bracketMin market) (bracketMax market) with
            | None => None
            | Some consensus =>
                if tier_eqb (confidence consensus) SKIP then None
                else
                    let consensusProb := consensusProbability consensus in
                    let yesPrice := yesPrice market in
                    let noPrice := noPrice market in
                    let yesEdge := (consensusProb - yesPrice)%num in
                    let noEdge := ((Num.one - consensusProb) - noPrice)%num in
                    let chosen :=
                      if (yesEdge >=? noEdge)%num && (yesEdge >? Num.zero)%num then
                        Some (YES, yesEdge, consensusProb, yesPrice)
                      else if (noEdge >? Num.zero)%num then
                        Some (NO, noEdge, (Num.one - consensusProb)%num, noPrice)
                      else None in
                    match chosen with
                    | None => None
                    | Some (side, edge, modelProbability, effectivePrice) =>
                        if (edge <? minEdge)%num then None
                        else
                          let sizing :=
                            kellySize modelProbability effectivePrice bankroll config in
                          let adjustedSize := (size sizing * kellyMultiplier consensus)%num in
                          let adjustedSize :=
                            Num.min adjustedSize (bankroll * maxPositionPct config)%num in
                          let adjustedSize :=
                            (Num.floor (adjustedSize * Num.of_Z 100) / Num.of_Z 100)%num in
                          if (adjustedSize <? lit 50 100)%num then None
                          else
                            Some {| sig_id := uuid;
                                    sig_market := market;
                                    sig_modelProbability := modelProbability;
                                    sig_marketPrice := effectivePrice;
                                    sig_edge := edge;
                                    sig_side := side;
                                    sig_size := adjustedSize;
                                    sig_kelly := rawKelly sizing;
                                    sig_confidence :=
                                      getConfidence edge (Some (confidence consensus));
                                    createdAt := now |}
                    end
            end
        end.

(** The loop over the markets; [k] counts the calls of [crypto.randomUUID()]
    made so far. *)
Fixpoint signalsFrom (host : Host) (config : AppConfig) (openIds : gset jsstring)
    (gfsEnsembles : gmap jsstring EnsembleForecast)
    (ecmwfEnsembles : option (gmap jsstring EnsembleForecast))
    (markets : list ParsedMarket) (k : nat) : list Signal :=
  match markets with
  | [] => []
  | market :: rest =>
      match signalFor host config openIds gfsEnsembles ecmwfEnsembles market
              (randomUUID host k) with
      | Some signal =>
          signal :: signalsFrom host config openIds gfsEnsembles ecmwfEnsembles rest (S k)
      | None =>
          signalsFrom host config openIds gfsEnsembles ecmwfEnsembles rest k
      end
  end.

Definition generateSignals (host : Host) (markets : list ParsedMarket)
    (gfsEnsembles : gmap jsstring EnsembleForecast) (config : AppConfig)
    (openPositions : list Position)
    (ecmwfEnsembles : option (gmap jsstring EnsembleForecast)) : list Signal :=
  signalsFrom host config (openConditionIds openPositions)
    gfsEnsembles ecmwfEnsembles markets 0.

(** *** The tier rules of the consensus, as the specification words them *)

(** The number of models consulted: the primary, the secondary when it has a
    probability for the date, and the point forecast when it is given and
    the metric is ["high"]. *)
Definition modelsConsulted (ecmwfProb : option num) (tiebreaker : option bool) : nat :=
  1 + (match ecmwfProb with Some _ => 1 | None => 0 end)
    + (match tiebreaker with Some _ => 1 | None => 0 end).

(** [TierRule models ratio tier multiplier]: the first rule that matches, in
    the order LOCK, STRONG, SAFE, NEAR-SAFE, SKIP, assigns [tier] and
    [multiplier]. *)
Inductive TierRule (models : nat) (ratio : Q) : ConfidenceTier -> num -> Prop :=
| rule_LOCK :
    (2 <= models)%nat -> ratio == 1 ->
    TierRule models ratio LOCK (lit 15 10)
| rule_STRONG :
    ~ ((2 <= models)%nat /\ ratio == 1) ->
    (2 <= models)%nat -> 66 # 100 <= ratio ->
    TierRule models ratio STRONG (lit 12 10)
| rule_SAFE :
    ~ ((2 <= models)%nat /\ ratio == 1) ->
    ~ ((2 <= models)%nat /\ 66 # 100 <= ratio) ->
    models = 1%nat ->
    TierRule models ratio SAFE (lit 10 10)
| rule_NEAR_SAFE :
    ~ ((2 <= models)%nat /\ ratio == 1) ->
    ~ ((2 <= models)%nat /\ 66 # 100 <= ratio) ->
    models <> 1%nat -> 5 # 10 <= ratio ->
    TierRule models ratio NEAR_SAFE (lit 7 10)
| rule_SKIP :
    ~ ((2 <= models)%nat /\ ratio == 1) ->
    ~ ((2 <= models)%nat /\ 66 # 100 <= ratio) ->
    models <> 1%nat -> ~ 5 # 10 <= ratio ->
    TierRule models ratio SKIP (Fin 0).

(** The directional vote of a probability: [probability >= 0.5]. *)
Definition vote (p : num) : bool := (p >=? lit 5 10)%num.

Definition agrees (b : option bool) (primary : bool) : nat :=
  match b with
  | Some v => if Bool.eqb v primary then 1 else 0
  | None => 0
  end.

(* ===================================================================== *)
(** ** Strings and regular expressions *)
(* ===================================================================== *)

(** The code units of an ASCII literal. *)
Definition str (s : string) : jsstring :=
  List.map N_of_ascii (list_ascii_of_string s).

(** [WhiteSpace] and [LineTerminator] code units: the class [\s], and what
    [String.prototype.trim] strips. *)
Definition is_space (c : N) : bool :=
  ((9 <=? c) && (c <=? 13) || (c =? 32) || (c =? 160) || (c =? 5760)
   || (8192 <=? c) && (c <=? 8202) || (c =? 8232) || (c =? 8233)
   || (c =? 8239) || (c =? 8287) || (c =? 12288) || (c =? 65279))%N.

(** Line terminators, which [.] does not match. *)
Definition is_line_terminator (c : N) : bool :=
  ((c =? 10) || (c =? 13) || (c =? 8232) || (c =? 8233))%N.

Definition is_digit (c : N) : bool := ((48 <=? c) && (c <=? 57))%N.

Definition is_upper (c : N) : bool := ((65 <=? c) && (c <=? 90))%N.
Definition is_lower (c : N) : bool := ((97 <=? c) && (c <=? 122))%N.

(** The class [\w]: [[A-Za-z0-9_]]. *)
Definition is_word (c : N) : bool :=
  is_upper c || is_lower c || is_digit c || (c =? 95)%N.

(** Case folding of the [i] flag, on the ASCII range.  Without the [u] flag
    a code unit outside ASCII never folds to an ASCII one, so against an
    ASCII pattern character this is the whole of [Canonicalize]. *)
Definition fold_case (c : N) : N := if is_lower c then (c - 32)%N else c.

Definition ascii_lower (c : N) : N := if is_upper c then (c + 32)%N else c.

(** Character classes of the three title patterns. *)
Inductive cls : Type :=
| CChar (c : N)   (* a pattern character, compared case-insensitively *)
| CSpace          (* \s *)
| CDigit          (* \d *)
| CWord           (* \w *)
| CAny.           (* .  *)

Definition cls_match (k : cls) (c : N) : bool :=
  match k with
  | CChar p => (fold_case c =? fold_case p)%N
  | CSpace => is_space c
  | CDigit => is_digit c
  | CWord => is_word c
  | CAny => negb (is_line_terminator c)
  end.

(** A pattern is a sequence of items: one character of a class, a starred
    class (greedy or lazy), an optional character, and the parentheses of a
    capture group.  [x+] is [x] followed by [x*]. *)
Inductive item : Type :=
| One (k : cls)
| Star (k : cls) (greedy : bool)
| Opt (k : cls)
| GOpen
| GClose.

Definition pattern : Type := list item.

(** Capture state of the backtracking matcher: the groups closed so far, and
    the characters of the group that is open (most recent first). *)
Record caps : Type := mkCaps {
  closed_groups : list jsstring;
  open_group : option jsstring
}.

Definition caps0 : caps := {| closed_groups := []; open_group := None |}.

Definition push (c : N) (st : caps) : caps :=
  {| closed_groups := closed_groups st;
     open_group := option_map (cons c) (open_group st) |}.

Definition gopen (st : caps) : caps :=
  {| closed_groups := closed_groups st; open_group := Some [] |}.

Definition gclose (st : caps) : caps :=
  {| closed_groups :=
       closed_groups st
       ++ match open_group st with Some g => [rev g] | None => [] end;
     open_group := None |}.

Definition orElse {A : Type} (a b : option A) : option A :=
  match a with Some _ => a | None => b end.

(** The backtracking matcher, anchored at the head of [s].  Alternatives are
    tried in the order of ECMAScript: a greedy quantifier first takes one
    more character, a lazy one first tries the rest of the pattern.  The
    result is the list of captured groups. *)
Fixpoint run (p : pattern) (s : jsstring) (st : caps) {struct p}
    : option (list jsstring) :=
  match p with
  | [] => Some (closed_groups st)
  | One k :: p' =>
      match s with
      | c :: s' => if cls_match k c then run p' s' (push c st) else None
      | [] => None
      end
  | Opt k :: p' =>
      match s with
      | c :: s' =>
          if cls_match k c
          then orElse (run p' s' (push c st)) (run p' s st)
          else run p' s st
      | [] => run p' s st
      end
  | Star k greedy :: p' =>
      (fix iter (s : jsstring) (st : caps) {struct s} : option (list jsstring) :=
         match s with
         | c :: s' =>
             if cls_match k c then
               if greedy
               then orElse (iter s' (push c st)) (run p' s st)
               else orElse (run p' s st) (iter s' (push c st))
             else run p' s st
         | [] => run p' s st
         end) s st
  | GOpen :: p' => run p' s (gopen st)
  | GClose :: p' => run p' s (gclose st)
  end.

(** [title.match(re)] for a pattern without the [g] flag: the match at the
    leftmost position where the matcher succeeds.  [m[k]] for [k >= 1] is
    the [k]-th element of the result. *)
Fixpoint exec (p : pattern) (s : jsstring) : option (list jsstring) :=
  match run p s caps0 with
  | Some m => Some m
  | None =>
      match s with
      | [] => None
      | _ :: s' => exec p s'
      end
  end.

(** Pattern notation helpers. *)
Definition chars (s : string) : pattern := List.map (fun c => One (CChar c)) (str s).
Definition plus (k : cls) (greedy : bool) : pattern := [One k; Star k greedy].
Definition group (p : pattern) : pattern := GOpen :: p ++ [GClose].

Definition degree_sign : N := 176%N.

(** [highest\s+temperature\s+in\s+(.+?)\s+be\s+] *)
Definition title_head : pattern :=
  chars "highest" ++ plus CSpace true ++ chars "temperature" ++ plus CSpace true
  ++ chars "in" ++ plus CSpace true ++ group (plus CAny false)
  ++ plus CSpace true ++ chars "be" ++ plus CSpace true.

(** [\s*°?\s*F?\s+] *)
Definition unit_suffix : pattern :=
  [Star CSpace true; Opt (CChar degree_sign); Star CSpace true; Opt (CChar 70)]
  ++ plus CSpace true.

(** [on\s+(\w+\s+\d+)] *)
Definition on_date : pattern :=
  chars "on" ++ plus CSpace true
  ++ group (plus CWord true ++ plus CSpace true ++ plus CDigit true).

(** [/highest\s+temperature\s+in\s+(.+?)\s+be\s+(\d+)\s*°?\s*F?\s+or\s+below\s+on\s+(\w+\s+\d+)/i] *)
Definition RE_OR_BELOW : pattern :=
  title_head ++ group (plus CDigit true) ++ unit_suffix
  ++ chars "or" ++ plus CSpace true ++ chars "below" ++ plus CSpace true ++ on_date.

(** [/highest\s+temperature\s+in\s+(.+?)\s+be\s+between\s+(\d+)\s*-\s*(\d+)\s*°?\s*F?\s+on\s+(\w+\s+\d+)/i] *)
Definition RE_BETWEEN : pattern :=
  title_head ++ chars "between" ++ plus CSpace true
  ++ group (plus CDigit true) ++ [Star CSpace true] ++ chars "-" ++ [Star CSpace true]
  ++ group (plus CDigit true) ++ unit_suffix ++ on_date.

(** [/highest\s+temperature\s+in\s+(.+?)\s+be\s+(\d+)\s*°?\s*F?\s+or\s+higher\s+on\s+(\w+\s+\d+)/i] *)
Definition RE_OR_HIGHER : pattern :=
  title_head ++ group (plus CDigit true) ++ unit_suffix
  ++ chars "or" ++ plus CSpace true ++ chars "higher" ++ plus CSpace true ++ on_date.

(** *** What a pattern matches, declaratively *)

Definition pushes (w : jsstring) (st : caps) : caps :=
  fold_left (fun st c => push c st) w st.

Definition all_in (k : cls) (w : jsstring) : Prop :=
  Forall (fun c => cls_match k c = true) w.

(** [Matches p st w st']: the pattern [p] can consume exactly [w], taking
    the capture state from [st] to [st']. *)
Fixpoint Matches (p : pattern) (st : caps) (w : jsstring) (st' : caps) : Prop :=
  match p with
  | [] => w = [] /\ st' = st
  | One k :: p' =>
      exists c w', w = c :: w' /\ cls_match k c = true /\ Matches p' (push c st) w' st'
  | Star k _ :: p' =>
      exists w1 w2, w = w1 ++ w2 /\ all_in k w1 /\ Matches p' (pushes w1 st) w2 st'
  | Opt k :: p' =>
      Matches p' st w st'
      \/ exists c w', w = c :: w' /\ cls_match k c = true /\ Matches p' (push c st) w' st'
  | GOpen :: p' => Matches p' (gopen st) w st'
  | GClose :: p' => Matches p' (gclose st) w st'
  end.

(** The language of a pattern: the strings it can consume, whatever the
    captures. *)
Fixpoint lang (p : pattern) (w : jsstring) : Prop :=
  match p with
  | [] => w = []
  | One k :: p' => exists c w', w = c :: w' /\ cls_match k c = true /\ lang p' w'
  | Star k _ :: p' => exists w1 w2, w = w1 ++ w2 /\ all_in k w1 /\ lang p' w2
  | Opt k :: p' =>
      lang p' w \/ exists c w', w = c :: w' /\ cls_match k c = true /\ lang p' w'
  | GOpen :: p' | GClose :: p' => lang p' w
  end.


(** Two strings that differ at most in the case of ASCII letters. *)
Definition same_up_to_case (s t : jsstring) : Prop :=
  Forall2 (fun a b => fold_case a = fold_case b) s t.

Definition is_flat_item (i : item) : bool :=
  match i with
  | GOpen | GClose => false
  | _ => true
  end.

(** A pattern without parentheses. *)
Definition flat (p : pattern) : bool := forallb is_flat_item p.

(** The title patterns are sequences of flat pieces and of capture groups
    around a flat piece. *)
Inductive seg : Type :=
| Flat (p : pattern)
| Grp (p : pattern).

Definition seg_inner (s : seg) : pattern :=
  match s with Flat p | Grp p => p end.

Definition seg_pattern (s : seg) : pattern :=
  match s with
  | Flat p => p
  | Grp p => group p
  end.

Definition segs_pattern (l : list seg) : pattern := flat_map seg_pattern l.

Definition seg_flat (s : seg) : Prop := flat (seg_inner s) = true.

(** The pieces of the words [ws] that stand at the capture groups of [l]. *)
Fixpoint groups_of (l : list seg) (ws : list jsstring) : list jsstring :=
  match l, ws with
  | Flat _ :: l', _ :: ws' => groups_of l' ws'
  | Grp _ :: l', w :: ws' => w :: groups_of l' ws'
  | _, _ => []
  end.

(** [highest\s+temperature\s+in\s+] and [\s+be\s+], the two flat pieces of
    [title_head]. *)
Definition head_phrase : pattern :=
  chars "highest" ++ plus CSpace true ++ chars "temperature" ++ plus CSpace true
  ++ chars "in" ++ plus CSpace true.

Definition be_phrase : pattern := plus CSpace true ++ chars "be" ++ plus CSpace true.

Definition date_words : pattern :=
  plus CWord true ++ plus CSpace true ++ plus CDigit true.

Definition segs_BETWEEN : list seg :=
  [ Flat head_phrase; Grp (plus CAny false);
    Flat (be_phrase ++ chars "between" ++ plus CSpace true);
    Grp (plus CDigit true);
    Flat ([Star CSpace true] ++ chars "-" ++ [Star CSpace true]);
    Grp (plus CDigit true);
    Flat (unit_suffix ++ chars "on" ++ plus CSpace true);
    Grp date_words ].

Definition segs_OR (word : string) : list seg :=
  [ Flat head_phrase; Grp (plus CAny false);
    Flat be_phrase;
    Grp (plus CDigit true);
    Flat (unit_suffix ++ chars "or" ++ plus CSpace true ++ chars word
          ++ plus CSpace true ++ chars "on" ++ plus CSpace true);
    Grp date_words ].

(** *** String helpers of the parser *)

Fixpoint trimStart (s : jsstring) : jsstring :=
  match s with
  | c :: s' => if is_space c then trimStart s' else s
  | [] => []
  end.

(** [String.prototype.trim] *)
Definition trim (s : jsstring) : jsstring :=
  rev (trimStart (rev (trimStart s))).

Fixpoint startsWith (s t : jsstring) : bool :=
  match t, s with
  | [], _ => true
  | _ :: _, [] => false
  | b :: t', a :: s' => (a =? b)%N && startsWith s' t'
  end.

(** [s.includes(t)] *)
Fixpoint includes (s t : jsstring) : bool :=
  startsWith s t ||
  match s with
  | [] => false
  | _ :: s' => includes s' t
  end.

(** [s.split(/\s+/)]: [cur] holds the part being read (most recent first)
    and [insep] tells whether the previous code unit was white space. *)
Fixpoint split_spaces (s : jsstring) (cur : jsstring) (insep : bool)
    : list jsstring :=
  match s with
  | [] => [rev cur]
  | c :: s' =>
      if is_space c then
        if insep then split_spaces s' cur true
        else rev cur :: split_spaces s' [] true
      else split_spaces s' (c :: cur) false
  end.

(** [s.replace(/\D/g, "")] *)
Definition digitsOnly (s : jsstring) : jsstring := List.filter is_digit s.

(** [s.padStart(2, "0")] *)
Definition padStart2 (s : jsstring) : jsstring :=
  repeat 48%N (2 - length s) ++ s.

(** The decimal digits of a natural number, as the template string
    [`${year}`] renders a year. *)
Fixpoint uint_digits (u : Decimal.uint) : jsstring :=
  match u with
  | Decimal.Nil => []
  | Decimal.D0 u => 48%N :: uint_digits u
  | Decimal.D1 u => 49%N :: uint_digits u
  | Decimal.D2 u => 50%N :: uint_digits u
  | Decimal.D3 u => 51%N :: uint_digits u
  | Decimal.D4 u => 52%N :: uint_digits u
  | Decimal.D5 u => 53%N :: uint_digits u
  | Decimal.D6 u => 54%N :: uint_digits u
  | Decimal.D7 u => 55%N :: uint_digits u
  | Decimal.D8 u => 56%N :: uint_digits u
  | Decimal.D9 u => 57%N :: uint_digits u
  end.

Definition show_N (n : N) : jsstring := uint_digits (N.to_uint n).

(** The value of a string of decimal digits. *)
Definition digits_value (s : jsstring) : Z :=
  fold_left (fun acc c => (10 * acc + (Z.of_N c - 48))%Z) s 0%Z.

(** [Number(x)] at a capture group.  An undefined group gives [NaN]; the
    patterns only capture runs of decimal digits, whose value this is (the
    empty string gives 0); other strings, which the parser never passes, are
    mapped to [NaN]. *)
Definition Number (x : option jsstring) : num :=
  match x with
  | None => NaN
  | Some s => if forallb is_digit s then Num.of_Z (digits_value s) else NaN
  end.

(* ===================================================================== *)
(** ** Title parsing ([src/market/parser.ts], tables of [src/config.ts]) *)
(* ===================================================================== *)

(** A JavaScript object with string keys: its own properties, in insertion
    order.  (The properties that an object literal inherits from
    [Object.prototype] are not part of the table.) *)
Definition table : Type := list (jsstring * jsstring).

Fixpoint lookup (t : table) (key : jsstring) : option jsstring :=
  match t with
  | [] => None
  | (k, v) :: t' => if jsstring_eqb k key then Some v else lookup t' key
  end.

Definition entry (k v : string) : jsstring * jsstring := (str k, str v).

Definition MONTHS : table :=
  [ entry "january" "01"; entry "february" "02"; entry "march" "03";
    entry "april" "04"; entry "may" "05"; entry "june" "06";
    entry "july" "07"; entry "august" "08"; entry "september" "09";
    entry "october" "10"; entry "november" "11"; entry "december" "12";
    entry "jan" "01"; entry "feb" "02"; entry "mar" "03"; entry "apr" "04";
    entry "jun" "06"; entry "jul" "07"; entry "aug" "08"; entry "sep" "09";
    entry "oct" "10"; entry "nov" "11"; entry "dec" "12" ].

Definition CITY_ALIASES : table :=
  [ entry "new york" "nyc"; entry "new york city" "nyc"; entry "nyc" "nyc";
    entry "manhattan" "nyc"; entry "central park" "nyc";
    entry "chicago" "chicago"; entry "o'hare" "chicago";
    entry "miami" "miami"; entry "atlanta" "atlanta";
    entry "seattle" "seattle"; entry "dallas" "dallas"; entry "dfw" "dallas";
    entry "fort worth" "dallas" ].

(** Truthiness of a string-or-undefined value: [undefined], [null] and the
    empty string are falsy. *)
Definition truthy (x : option jsstring) : option jsstring :=
  match x with
  | Some [] | None => None
  | Some s => Some s
  end.

Definition matchCity (host : Host) (raw : jsstring) : option jsstring :=
  let normalized := toLowerCase host (trim raw) in
  (* Direct match *)
  match truthy (lookup CITY_ALIASES normalized) with
  | Some slug => Some slug
  | None =>
      (* Try partial match *)
      option_map snd
        (List.find (fun '(alias, _) => includes normalized alias || includes alias normalized)
           CITY_ALIASES)
  end.

Definition parseDate (host : Host) (raw : jsstring) : option jsstring :=
  match split_spaces (trim raw) [] false with
  | part0 :: part1 :: _ =>
      let monthStr := toLowerCase host part0 in
      let day := digitsOnly part1 in
      match truthy (lookup MONTHS monthStr), truthy (Some day) with
      | Some monthNum, Some day =>
          let year := Date_fullYear host in
          Some (show_N year ++ str "-" ++ monthNum ++ str "-" ++ padStart2 day)
      | _, _ => None
      end
  | _ => None
  end.

Definition buildParsed (raw : RawMarket) (city date : jsstring) (metric : Metric)
    (bracketType : BracketType) (bracketMin bracketMax : num) : ParsedMarket :=
  {| conditionId := raw_conditionId raw;
     title := raw_title raw;
     city := city;
     date := date;
     metric := metric;
     bracketMin := bracketMin;
     bracketMax := bracketMax;
     bracketType := bracketType;
     yesTokenId := match nth_error (tokens raw) 0 with Some t => tokenId t | None => [] end;
     noTokenId := match nth_error (tokens raw) 1 with Some t => tokenId t | None => [] end;
     yesPrice := match nth_error (tokens raw) 0 with Some t => price t | None => Num.zero end;
     noPrice := match nth_error (tokens raw) 1 with Some t => price t | None => Num.zero end;
     volume := raw_volume raw;
     endDateIso := raw_endDateIso raw |}.

(** The outcome of a call: a returned value, or a thrown [TypeError]. *)
Inductive result (A : Type) : Type :=
| Returned (a : A)
| Thrown.
Arguments Returned {A} a.
Arguments Thrown {A}.

#[export] Instance result_bind : MBind result :=
  fun A B (f : A -> result B) (r : result A) =>
    match r with
    | Returned a => f a
    | Thrown => Thrown
    end.

(** [m[k]] of a match result, for [k >= 1]; [None] is [undefined]. *)
Definition capture (m : list jsstring) (k : nat) : option jsstring :=
  nth_error m (k - 1).

(** A capture passed where the callee calls [raw.trim()]: an undefined
    capture makes that call throw. *)
Definition stringArg (x : option jsstring) : result jsstring :=
  match x with
  | Some s => Returned s
  | None => Thrown
  end.

(** [logUnparsed] logs and returns [null]. *)
Definition logUnparsed : result (option ParsedMarket) := Returned None.

Definition parseMarketTitle (host : Host) (raw : RawMarket)
    : result (option ParsedMarket) :=
  let title := raw_title raw in
  (* Try "between X-Y°F" *)
  match exec RE_BETWEEN title with
  | Some m =>
      rawCity ← stringArg (capture m 1);
      match truthy (matchCity host rawCity) with
      | None => logUnparsed
      | Some citySlug =>
          rawDate ← stringArg (capture m 4);
          match truthy (parseDate host rawDate) with
          | None => logUnparsed
          | Some date =>
              Returned (Some (buildParsed raw citySlug date high between
                                (Number (capture m 2))
                                (Number (capture m 3) + Num.one)%num))
          end
      end
  | None =>
  (* Try "X°F or below" *)
  match exec RE_OR_BELOW title with
  | Some m =>
      rawCity ← stringArg (capture m 1);
      match truthy (matchCity host rawCity) with
      | None => logUnparsed
      | Some citySlug =>
          rawDate ← stringArg (capture m 3);
          match truthy (parseDate host rawDate) with
          | None => logUnparsed
          | Some date =>
              Returned (Some (buildParsed raw citySlug date high below
                                NInf
                                (Number (capture m 2) + Num.one)%num))
          end
      end
  | None =>
  (* Try "X°F or higher" *)
  match exec RE_OR_HIGHER title with
  | Some m =>
      rawCity ← stringArg (capture m 1);
      match truthy (matchCity host rawCity) with
      | None => logUnparsed
      | Some citySlug =>
          rawDate ← stringArg (capture m 3);
          match truthy (parseDate host rawDate) with
          | None => logUnparsed
          | Some date =>
              Returned (Some (buildParsed raw citySlug date high above
                                (Number (capture m 2))
                                PInf))
          end
      end
  | None => logUnparsed
  end end end.

(** [parseAllMarkets]: the parsed markets, in order. *)
Fixpoint parseAllMarkets (host : Host) (raws : list RawMarket)
    : result (list ParsedMarket) :=
  match raws with
  | [] => Returned []
  | raw :: rest =>
      p ← parseMarketTitle host raw;
      parsed ← parseAllMarkets host rest;
      Returned (match p with Some p => p :: parsed | None => parsed end)
  end.

(* ===================================================================== *)
(** ** Fixtures of the test suites ([tests/*.test.ts]) *)
(* ===================================================================== *)

Definition deg (n : Z) : num := Num.of_Z n.

(** [makeForecast] of [tests/probability.test.ts]. *)
Definition makeForecast (hs : list num) (date : jsstring) : DailyForecast :=
  {| df_date := date; highs := hs;
     lows := List.map (fun h => (h - deg 15)%num) hs |}.

(** 31 members: 10 at 41F, 10 at 42F, 10 at 43F, 1 at 44F. *)
Definition MOCK_HIGHS : list num :=
  repeat (deg 41) 10 ++ repeat (deg 42) 10 ++ repeat (deg 43) 10 ++ repeat (deg 44) 1.

Definition FORECAST : DailyForecast := makeForecast MOCK_HIGHS (str "2026-02-17").

(** The ensemble of [tests/edge.test.ts]. *)
Definition HIGHS : list num :=
  repeat (deg 42) 10 ++ repeat (deg 43) 10 ++ repeat (deg 41) 5 ++ repeat (deg 44) 6.

Definition ENSEMBLE : EnsembleForecast :=
  {| ef_city := str "nyc"; fetchedAt := Num.zero;
     daily := [makeForecast HIGHS (str "2026-02-17")] |}.

(** [makeMarket] of [tests/edge.test.ts], with its two prices. *)
Definition makeMarket (yes no : num) : ParsedMarket :=
  {| conditionId := str "cond-1"; title := str "test"; city := str "nyc";
     date := str "2026-02-17"; metric := high;
     bracketMin := deg 42; bracketMax := deg 44; bracketType := between;
     yesTokenId := str "yes-1"; noTokenId := str "no-1";
     yesPrice := yes; noPrice := no;
     volume := Num.of_Z 5000; endDateIso := str "2026-02-18T00:00:00Z" |}.

(** [DEFAULT_CONFIG] of [tests/sizing.test.ts]. *)
Definition DEFAULT_CONFIG : AppConfig :=
  {| mode := paper; bankrollUsdc := Num.of_Z 100; maxPositionPct := lit 5 100;
     minEdgePct := Num.of_Z 8; kellyFraction := lit 25 100;
     maxOpenPositions := Num.of_Z 10;
     polygonPrivateKey := None; polymarketApiKey := None;
     polymarketApiSecret := None; polymarketApiPassphrase := None |}.

(** [makeRaw] of [tests/parser.test.ts]. *)
Definition makeRaw (title : jsstring) : RawMarket :=
  {| raw_conditionId := str "cond-123"; questionId := str "q-123";
     raw_title := title; slug := str "test-slug";
     outcomes := [str "Yes"; str "No"]; outcomePrices := [str "0.50"; str "0.50"];
     tokens := [ {| tokenId := str "yes-token"; outcome := str "Yes"; price := lit 5 10 |};
                 {| tokenId := str "no-token"; outcome := str "No"; price := lit 5 10 |} ];
     raw_volume := Num.of_Z 10000; raw_endDateIso := str "2026-02-18T00:00:00Z";
     active := true; closed := false |}.

(** A host whose clock reads [now] in the year 2026 and whose
    [toLowerCase] is the ASCII one; [uuids] are the identifiers it hands
    out and [getTime] its date parser. *)
Definition hostAt (now : num) (uuids : nat -> jsstring) (getTime : jsstring -> num)
    : Host :=
  {| Date_now := now; Date_fullYear := 2026%N; randomUUID := uuids;
     Date_getTime := getTime; toLowerCase := List.map ascii_lower |}.

(** The same signal under another identifier. *)
Definition with_id (u : jsstring) (s : Signal) : Signal :=
  {| sig_id := u; sig_market := sig_market s;
     sig_modelProbability := sig_modelProbability s;
     sig_marketPrice := sig_marketPrice s; sig_edge := sig_edge s;
     sig_side := sig_side s; sig_size := sig_size s; sig_kelly := sig_kelly s;
     sig_confidence := sig_confidence s; createdAt := createdAt s |}.

(** [new Date(s).getTime()] on the two date strings of the fixtures
    (milliseconds since the epoch); an invalid date gives [NaN]. *)
Definition fixtureGetTime (s : jsstring) : num :=
  if jsstring_eqb s (str "2026-02-18T00:00:00Z") then Num.of_Z 1771372800000
  else if jsstring_eqb s (str "2026-02-17") then Num.of_Z 1771286400000
  else NaN.

(** Midnight UTC of 2026-02-16. *)
Definition fixtureNow : num := Num.of_Z 1771200000000.

Definition uuidsA (k : nat) : jsstring := str "3b241101-e2bb-4255-8caf-4136c566a962".
Definition uuidsB (k : nat) : jsstring := str "9f1c2d3e-4a5b-4c6d-8e7f-0a1b2c3d4e5f".

Definition hostA : Host := hostAt fixtureNow uuidsA fixtureGetTime.
Definition hostB : Host := hostAt fixtureNow uuidsB fixtureGetTime.

Definition fixtureEnsembles : gmap jsstring EnsembleForecast :=
  {[ str "nyc" := ENSEMBLE ]}.


(** The market of [tests/edge.test.ts] at prices 0.80 / 0.20. *)
Definition marketNo : ParsedMarket := makeMarket (lit 8 10) (lit 2 10).

(** A title mentions the phrase "highest temperature": the two words in any
    letter case, separated by white space. *)
Definition mentions_highest_temperature (s : jsstring) : Prop :=
  exists pre h sp t post,
    s = pre ++ h ++ sp ++ t ++ post
    /\ same_up_to_case h (str "highest")
    /\ sp <> [] /\ all_in CSpace sp
    /\ same_up_to_case t (str "temperature").

(** The title of the first test of [tests/parser.test.ts]:
    "Will the highest temperature in New York City be between 32-33°F on
    February 16?" *)
Definition title_between_32_33 : jsstring :=
  str "Will the highest temperature in New York City be between 32-33"
  ++ [degree_sign] ++ str "F on February 16?".

(** What [parseMarketTitle] returns once a pattern has matched with city
    text [c] and date text [d]. *)
Definition parsedAs (host : Host) (raw : RawMarket) (c d : jsstring)
    (bracketType : BracketType) (bracketMin bracketMax : num)
    : result (option ParsedMarket) :=
  match matchCity host c, parseDate host d with
  | Some city, Some date =>
      Returned (Some (buildParsed raw city date high bracketType bracketMin bracketMax))
  | _, _ => Returned None
  end.

(** Splits a [Forall2] over a list of segments into one word per segment. *)
Ltac split_words H :=
  repeat match type of H with
         | Forall2 _ (_ :: _) _ =>
             let w := fresh "w" in
             let L := fresh "L" in
             apply Forall2_cons_inv_l in H as (w & ? & L & H & ->);
             simpl seg_inner in L
         | Forall2 _ [] _ => apply Forall2_nil_inv_l in H as ->
         end.


(** The ensemble of the dispatch tests of [tests/probability.test.ts]. *)
Definition FORECAST_ENSEMBLE : EnsembleForecast :=
  {| ef_city := str "nyc"; fetchedAt := Num.zero; daily := [FORECAST] |}.

(** The quotient of two integers, as a number. *)
Definition ratio (n d : Z) : num := Fin (inject_Z n / inject_Z d).

(** The fields that the parser tests inspect, for a title parsed on a host
    in the year 2026. *)
Definition parsedFields (title : string)
    : option (jsstring * jsstring * BracketType * num * num) :=
  match parseMarketTitle hostA (makeRaw (str title)) with
  | Returned (Some m) => Some (city m, date m, bracketType m, bracketMin m, bracketMax m)
  | _ => None
  end.

(* ===================================================================== *)
(** ** Further vocabulary for the properties *)
(* ===================================================================== *)

(** A number that is neither [NaN] nor infinite and has no fractional
    part. *)
Definition is_integer (a : num) : Prop := exists z : Z, a = Num.of_Z z.

(** The value is not [NaN]. *)
Definition is_number (a : num) : Prop := a <> NaN.

(** The property names that an object literal inherits from
    [Object.prototype].  A lookup [t[key]] at one of them finds the inherited
    member, which a [table] does not hold; the statements about table
    lookups below are made for the other keys. *)
Definition Object_prototype_keys : list jsstring :=
  List.map str
    [ "constructor"; "__proto__"; "hasOwnProperty"; "isPrototypeOf";
      "propertyIsEnumerable"; "toLocaleString"; "toString"; "valueOf";
      "__defineGetter__"; "__defineSetter__"; "__lookupGetter__";
      "__lookupSetter__" ]%string.

(* ===================================================================== *)
(** ** Risk state ([src/engine/risk.ts]) *)
(* ===================================================================== *)

(** The two module variables [consecutiveLosses] and [circuitBroken]; the
    counter only ever holds natural numbers. *)
Record RiskVars : Type := mkRiskVars {
  consecutiveLosses : nat;
  circuitBroken : bool
}.

(** The values of the variables when the module is loaded. *)
Definition riskVarsAtLoad : RiskVars :=
  {| consecutiveLosses := 0; circuitBroken := false |}.

Definition MAX_CONSECUTIVE_LOSSES : nat := 3.

Record RiskState : Type := mkRiskState {
  rs_consecutiveLosses : nat;
  rs_circuitBroken : bool;
  totalExposure : num;
  openCount : nat
}.

Definition checkRiskLimits (vars : RiskVars) (config : AppConfig)
    (openPositions : list Position) : RiskState :=
  let totalExposure :=
    fold_left (fun sum p => (sum + pos_size p)%num) openPositions Num.zero in
  {| rs_consecutiveLosses := consecutiveLosses vars;
     rs_circuitBroken := circuitBroken vars;
     totalExposure := totalExposure;
     openCount := length openPositions |}.

Definition onSettlement (won : bool) (vars : RiskVars) : RiskVars :=
  if won then
    {| consecutiveLosses := 0;
       circuitBroken := if circuitBroken vars then false else circuitBroken vars |}
  else
    let losses := S (consecutiveLosses vars) in
    {| consecutiveLosses := losses;
       circuitBroken :=
         if (MAX_CONSECUTIVE_LOSSES <=? losses)%nat then true
         else circuitBroken vars |}.

Definition resetCircuitBreaker (vars : RiskVars) : RiskVars :=
  {| consecutiveLosses := 0; circuitBroken := false |}.

(** [minHours] is [None] when the argument is left out, and then 2. *)
Definition isTooCloseToSettlement (host : Host) (endDateIso : jsstring)
    (minHours : option num) : bool :=
  let minHours := match minHours with Some h => h | None => int 2 end in
  let endTime := Date_getTime host endDateIso in
  let now := Date_now host in
  (endTime - now <? minHours * int 60 * int 60 * int 1000)%num.

(** The loop of [initRiskState]: count the positions up to the first one
    that is not lost. *)
Fixpoint leadingLosses (settled : list Position) (count : nat) : nat :=
  match settled with
  | [] => count
  | p :: rest =>
      match status p with
      | st_lost => leadingLosses rest (S count)
      | _ => count
      end
  end.

(** [initRiskState], on the rows that [getAllPositions()] returns (all
    positions, latest entry first). *)
Definition initRiskState (positions : list Position) (vars : RiskVars) : RiskVars :=
  let settled :=
    List.filter (fun p => match status p with
                          | st_won | st_lost => true
                          | _ => false
                          end) positions in
  let losses := leadingLosses settled 0 in
  {| consecutiveLosses := losses;
     circuitBroken :=
       if (MAX_CONSECUTIVE_LOSSES <=? losses)%nat then true
       else circuitBroken vars |}.

(** A call of the risk module after start-up. *)
Inductive RiskCall : Type :=
| Settled (won : bool)
| ManualReset.

Definition riskCall (vars : RiskVars) (c : RiskCall) : RiskVars :=
  match c with
  | Settled won => onSettlement won vars
  | ManualReset => resetCircuitBreaker vars
  end.

(* ===================================================================== *)
(** ** Paper execution ([src/market/execution.ts]) *)
(* ===================================================================== *)

(** [executePaper]; [k] counts the calls of [crypto.randomUUID()] made so
    far.  The optional fields of the position are left out. *)
Definition executePaper (host : Host) (k : nat) (signal : Signal) : Position :=
  {| pos_id := randomUUID host k;
     pos_signalId := sig_id signal;
     pos_conditionId := conditionId (sig_market signal);
     pos_city := city (sig_market signal);
     pos_date := date (sig_market signal);
     pos_metric := metric (sig_market signal);
     pos_bracketMin := bracketMin (sig_market signal);
     pos_bracketMax := bracketMax (sig_market signal);
     pos_bracketType := bracketType (sig_market signal);
     pos_side := sig_side signal;
     entryPrice := sig_marketPrice signal;
     pos_size := sig_size signal;
     potentialPayout := (sig_size signal / sig_marketPrice signal)%num;
     pos_modelProbability := sig_modelProbability signal;
     pos_edge := sig_edge signal;
     status := st_open;
     entryTime := Date_now host;
     settleTime := None;
     actualTemp := None;
     pnl := None;
     orderId := None |}.

(* ===================================================================== *)
(** ** Settlement ([src/settlement/tracker.ts]) *)
(* ===================================================================== *)


Definition evaluateOutcome (pos : Position) (actualTemp : num) : PositionStatus :=
  let inBracket :=
    match pos_bracketType pos with
    | above => (actualTemp >=? pos_bracketMin pos)%num
    | below => (actualTemp <? pos_bracketMax pos)%num
    | between =>
        (actualTemp >=? pos_bracketMin pos)%num && (actualTemp <? pos_bracketMax pos)%num
    end in
  (* YES wins if in bracket, NO wins if not in bracket *)
  match pos_side pos with
  | YES => if inBracket then st_won else st_lost
  | NO => if inBracket then st_lost else st_won
  end.

Definition is_won (s : PositionStatus) : bool :=
  match s with st_won => true | _ => false end.



(* ===================================================================== *)
(** ** Ensemble responses ([src/weather/ensemble.ts], [src/weather/ecmwf.ts]) *)
(* ===================================================================== *)

Record CityConfig : Type := mkCityConfig {
  cc_name : jsstring;
  cc_slug : jsstring;
  polymarketSlug : jsstring;
  lat : num;
  lon : num;
  nwsGridId : jsstring;
  nwsGridX : num;
  nwsGridY : num;
  iowaStation : jsstring
}.

(** The [hourly] object of a response: its [time] array and its other own
    properties, in the order of [Object.keys].  An element of a series is
    [None] where the array holds [null] or ends before the index. *)
Record OpenMeteoHourly : Type := mkOpenMeteoHourly {
  om_time : list jsstring;
  om_series : list (jsstring * list (option num))
}.

Definition celsiusToFahrenheit (c : num) : num :=
  (c * int 9 / int 5 + int 32)%num.

(** [Math.round]: the nearest integer, a half rounding up. *)
Definition Math_round (a : num) : num :=
  match a with
  | Fin q => Num.of_Z (Qfloor (q + (1 # 2)))
  | _ => a
  end.

(** [Math.max(...temps)] and [Math.min(...temps)]. *)
Definition Math_max (temps : list num) : num := fold_left Num.max temps NInf.
Definition Math_min (temps : list num) : num := fold_left Num.min temps PInf.

Definition isMemberKey (key : jsstring) : bool :=
  jsstring_eqb key (str "temperature_2m")
  || startsWith key (str "temperature_2m_member").

(** The [Map] from dates to the hourly temperatures of each member, in
    insertion order. *)
Definition DateMap : Type := list (jsstring * list (list num)).

Fixpoint map_has (byDate : DateMap) (date : jsstring) : bool :=
  match byDate with
  | [] => false
  | (d, _) :: rest => jsstring_eqb d date || map_has rest date
  end.

(** [f] applied to the value stored at [date]. *)
Fixpoint map_adjust (f : list (list num) -> list (list num)) (date : jsstring)
    (byDate : DateMap) : DateMap :=
  match byDate with
  | [] => []
  | (d, members) :: rest =>
      if jsstring_eqb d date then (d, f members) :: rest
      else (d, members) :: map_adjust f date rest
  end.

(** The inner loop over the members at hour [i]: a value that is not
    [null] is converted and pushed onto its member's array. *)
Definition pushHour (series : list (list (option num))) (i : nat)
    (members : list (list num)) : list (list num) :=
  zip_with
    (fun temps s =>
       match nth_error s i with
       | Some (Some val) => temps ++ [celsiusToFahrenheit val]
       | _ => temps
       end)
    members series.

(** The loop over the hours, from hour [i] on. *)
Fixpoint groupHours (series : list (list (option num))) (times : list jsstring)
    (i : nat) (byDate : DateMap) : DateMap :=
  match times with
  | [] => byDate
  | time :: rest =>
      let date := firstn 10 time in
      let byDate :=
        if map_has byDate date then byDate
        else byDate ++ [(date, List.map (fun _ => []) series)] in
      groupHours series rest (S i) (map_adjust (pushHour series i) date byDate)
  end.

(** The daily high and low of each member that has a value on the day. *)
Fixpoint extremes (members : list (list num)) : list num * list num :=
  match members with
  | [] => ([], [])
  | temps :: rest =>
      let '(highs, lows) := extremes rest in
      if Nat.eqb (length temps) 0 then (highs, lows)
      else (Math_round (Math_max temps) :: highs, Math_round (Math_min temps) :: lows)
  end.

Definition dailyOf (entry : jsstring * list (list num)) : option DailyForecast :=
  let '(date, members) := entry in
  let '(highs, lows) := extremes members in
  if (0 <? length highs)%nat then
    Some {| df_date := date; highs := highs; lows := lows |}
  else None.

Definition parseEnsembleResponse (host : Host) (city : CityConfig)
    (hourly : OpenMeteoHourly) : EnsembleForecast :=
  let times := om_time hourly in
  let memberKeys := List.filter (fun kv => isMemberKey (fst kv)) (om_series hourly) in
  let series := List.map snd memberKeys in
  let byDate := groupHours series times 0 [] in
  {| ef_city := cc_slug city;
     fetchedAt := Date_now host;
     daily := omap dailyOf byDate |}.

(* ===================================================================== *)
(** ** Backtest ([src/engine/backtest.ts]) *)
(* ===================================================================== *)

Record Bracket : Type := mkBracket {
  br_bracketType : BracketType;
  br_bracketMin : num;
  br_bracketMax : num;
  syntheticPrice : num
}.



(** Whether the observed high falls in a bracket, as [runBacktest] decides
    it. *)
Definition bracketHolds (bracket : Bracket) (actualHigh : num) : bool :=
  match br_bracketType bracket with
  | between =>
      (actualHigh >=? br_bracketMin bracket)%num
      && (actualHigh <? br_bracketMax bracket)%num
  | above => (actualHigh >=? br_bracketMin bracket)%num
  | below => (actualHigh <? br_bracketMax bracket)%num
  end.

Record BacktestTrade : Type := mkBacktestTrade {
  bt_city : jsstring;
  bt_date : jsstring;
  bt_bracketType : BracketType;
  bt_bracketMin : num;
  bt_bracketMax : num;
  bt_side : Side;
  modelProb : num;
  bt_entryPrice : num;
  bt_edge : num;
  bt_actualTemp : num;
  won : bool;
  bt_pnl : num
}.

(** The body of the loop over the brackets in [runBacktest]: the simulated
    trade on one bracket, [None] where the loop continues without one. *)
Definition backtestTrade (config : AppConfig) (citySlug : jsstring)
    (forecast : DailyForecast) (actualHigh : num) (bracket : Bracket)
    : option BacktestTrade :=
  (* Calculate model probability *)
  let modelProb :=
    match br_bracketType bracket with
    | between =>
        probability (calcBucketProbability forecast high
                       (br_bracketMin bracket) (br_bracketMax bracket))
    | above => calcAboveProbability forecast high (br_bracketMin bracket)
    | below => calcBelowProbability forecast high (br_bracketMax bracket)
    end in
  let syntheticPrice := syntheticPrice bracket in
  (* Calculate edge *)
  let yesEdge := (modelProb - syntheticPrice)%num in
  let noEdge := ((int 1 - modelProb) - (int 1 - syntheticPrice))%num in
  let chosen :=
    if (yesEdge >=? noEdge)%num && (yesEdge >? minEdgePct config / int 100)%num then
      Some (YES, yesEdge, syntheticPrice)
    else if (noEdge >? minEdgePct config / int 100)%num then
      Some (NO, noEdge, (int 1 - syntheticPrice)%num)
    else None in
  match chosen with
  | None => None
  | Some (side, edge, entryPrice) =>
      (* Determine outcome *)
      let inBracket := bracketHolds bracket actualHigh in
      let won := match side with YES => inBracket | NO => negb inBracket end in
      let size := int 1 in
      let pnl :=
        if won then ((int 1 - entryPrice) * size)%num
        else (Num.opp entryPrice * size)%num in
      Some {| bt_city := citySlug; bt_date := df_date forecast;
              bt_bracketType := br_bracketType bracket;
              bt_bracketMin := br_bracketMin bracket;
              bt_bracketMax := br_bracketMax bracket;
              bt_side := side; modelProb := modelProb;
              bt_entryPrice := entryPrice; bt_edge := edge;
              bt_actualTemp := actualHigh; won := won; bt_pnl := pnl |}
  end.

(* ===================================================================== *)
(** ** The execution loop ([src/index.ts], [src/commands/scan.ts]) *)
(* ===================================================================== *)

(** The loop that executes the signals of one cycle.  [execute] stands for
    the body of the [try] block -- [insertSignal], [executeSignal] and
    [insertPosition] -- on the state [St] of the store and the exchange: it
    returns the new position or throws, and a throw is caught and logged.
    The position is pushed onto [openPositions] (in [scan.ts], counted in
    [executed]). *)
Fixpoint executeSignals {St : Type} (execute : St -> Signal -> St * result Position)
    (config : AppConfig) (signals : list Signal) (st : St)
    (openPositions : list Position) : St * list Position :=
  match signals with
  | [] => (st, openPositions)
  | signal :: rest =>
      if (Num.of_nat (length openPositions) >=? maxOpenPositions config)%num then
        (st, openPositions) (* break *)
      else
        match execute st signal with
        | (st', Returned position) =>
            executeSignals execute config rest st' (openPositions ++ [position])
        | (st', Thrown) =>
            executeSignals execute config rest st' openPositions
        end
  end.

(** Steps 4 to 6 of one cycle of the main loop: the risk check, the
    signals and their execution.  The result is the state, the open
    positions and [latestSignals]. *)
Definition tradeCycle {St : Type} (execute : St -> Signal -> St * result Position)
    (host : Host) (vars : RiskVars) (config : AppConfig)
    (parsedMarkets : list ParsedMarket)
    (gfsEnsembles ecmwfEnsembles : gmap jsstring EnsembleForecast)
    (st : St) (openPositions : list Position)
    : St * list Position * list Signal :=
  let risk := checkRiskLimits vars config openPositions in
  if rs_circuitBroken risk then
    (st, openPositions, [])
  else if (Num.of_nat (length openPositions) >=? maxOpenPositions config)%num then
    (st, openPositions, [])
  else
    (* Generate signals (pass both ensembles for consensus) *)
    let latestSignals :=
      generateSignals host parsedMarkets gfsEnsembles config openPositions
        (Some ecmwfEnsembles) in
    let '(st', openPositions') :=
      executeSignals execute config latestSignals st openPositions in
    (st', openPositions', latestSignals).

(* ===================================================================== *)
(** ** Further fixtures *)
(* ===================================================================== *)

(** The first entry of [CITIES] ([src/config.ts]). *)
Definition NYC : CityConfig :=
  {| cc_name := str "New York City"; cc_slug := str "nyc";
     polymarketSlug := str "nyc";
     lat := lit 407128 10000; lon := lit (-74006) 1000;
     nwsGridId := str "OKX"; nwsGridX := int 33; nwsGridY := int 37;
     iowaStation := str "KNYC" |}.

(** A response with three hours on two days, two member series -- the
    second without a value at the second hour, the first without one at the
    third -- and a series that is no member. *)
Definition sampleHourly : OpenMeteoHourly :=
  {| om_time := [str "2026-02-17T00:00"; str "2026-02-17T01:00"; str "2026-02-18T00:00"];
     om_series :=
       [ (str "temperature_2m", [Some (lit 52 10); Some (lit 61 10); None]);
         (str "temperature_2m_member01", [Some (lit 48 10); None; Some (lit 70 10)]);
         (str "relative_humidity_2m", [Some (int 80); Some (int 81); Some (int 82)]) ] |}.

(** A one-dollar signal on the market of [tests/edge.test.ts], priced at
    1/7 for either side. *)
Definition dollarSignal (side : Side) : Signal :=
  {| sig_id := uuidsA 0;
     sig_market := makeMarket (Fin (1 # 7)) (Fin (1 - (1 # 7)));
     sig_modelProbability := Fin (20 # 31);
     sig_marketPrice := Fin (1 # 7);
     sig_edge := Fin ((20 # 31) - (1 # 7));
     sig_side := side;
     sig_size := Fin 1;
     sig_kelly := Fin (((20 # 31) - (1 # 7)) / (1 - (1 # 7)));
     sig_confidence := LOCK;
     createdAt := fixtureNow |}.


(** The bracket of the market of [tests/edge.test.ts], priced at 1/7. *)
Definition sampleBracket : Bracket :=
  {| br_bracketType := between; br_bracketMin := deg 42; br_bracketMax := deg 44;
     syntheticPrice := Fin (1 # 7) |}.

(** The invariant of the loop over the hours. *)
Definition grouped (series : list (list (option num))) (times : list jsstring)
    (byDate : DateMap) : Prop :=
  NoDup (List.map fst byDate)
  /\ Forall (fun e => exists time, In time times /\ fst e = firstn 10 time) byDate
  /\ Forall (fun e => length (snd e) = length series
                      /\ Forall (Forall Num.finite) (snd e)) byDate.

(** Case analysis on every number in sight, with the boolean comparisons
    of rationals turned into propositions. *)
Ltac num_cases :=
  repeat match goal with
         | x : num |- _ => destruct x
         end;
  simpl in *; try discriminate; try contradiction; try congruence;
  repeat match goal with
         | |- context [Qle_bool ?x ?y] =>
             let E := fresh "E" in
             destruct (Qle_bool x y) eqn:E;
             [apply Qle_bool_iff in E
             |apply not_true_iff_false in E; rewrite Qle_bool_iff in E]
         | H : context [Qle_bool ?x ?y] |- _ =>
             let E := fresh "E" in
             destruct (Qle_bool x y) eqn:E;
             [apply Qle_bool_iff in E
             |apply not_true_iff_false in E; rewrite Qle_bool_iff in E]
         end;
  simpl in *; try discriminate; try contradiction; try congruence; try lra.

(* ===================================================================== *)
(** * Properties *)
(* ===================================================================== *)

(** ** Numbers *)

Lemma sgn_pos q : 0 < q -> Num.sgn q = Lt.
Proof. intros H. unfold Num.sgn. now apply Qlt_alt. Qed.

Lemma sgn_neg q : q < 0 -> Num.sgn q = Gt.
Proof. intros H. unfold Num.sgn. now apply Qgt_alt. Qed.

Lemma sgn_zero q : q == 0 <-> Num.sgn q = Eq.
Proof. unfold Num.sgn. rewrite <- Qeq_alt. split; intros H; now symmetry. Qed.

#[export] Instance num_eq_equiv : Equivalence Num.eq.
Proof.
  split.
  - intros []; simpl; auto; reflexivity.
  - intros [] []; simpl; auto; intros; now symmetry.
  - intros [] [] []; simpl; auto; try tauto; intros; etransitivity; eauto.
Qed.

Lemma leb_le a b : (a <=? b)%num = true <-> (a <= b)%num.
Proof.
  split.
  - destruct a, b; simpl; try discriminate; intros H;
      try (constructor; congruence).
    constructor. now apply Qle_bool_iff.
  - intros H; destruct H as [p q H| b H | a H]; simpl.
    + now apply Qle_bool_iff.
    + destruct b; simpl; congruence.
    + destruct a; simpl; congruence.
Qed.

Lemma ltb_lt a b : (a <? b)%num = true <-> (a < b)%num.
Proof.
  split.
  - destruct a, b; simpl; try discriminate; intros H; try constructor.
    apply negb_true_iff in H. apply Qnot_le_lt. intros Hle.
    apply Qle_bool_iff in Hle. congruence.
  - intros H; destruct H; simpl; auto.
    apply negb_true_iff. apply not_true_is_false. intros Hle.
    apply Qle_bool_iff in Hle. lra.
Qed.

Lemma geb_le a b : (a >=? b)%num = true <-> (b <= a)%num.
Proof. unfold Num.geb. apply leb_le. Qed.

(** On numbers other than [NaN] the order is total: exactly one of
    [t <= a] and [a < t] holds. *)
Lemma geb_ltb_negb a t :
  a <> NaN -> t <> NaN -> (a <? t)%num = negb (a >=? t)%num.
Proof.
  intros Ha Ht. unfold Num.geb.
  destruct a, t; simpl; congruence.
Qed.

Lemma le_refl_eq a b : a <> NaN -> (a == b)%num -> (a <= b)%num.
Proof.
  destruct a, b; simpl; intros Hn H; try contradiction; try congruence.
  - now constructor.
  - constructor. lra.
  - now constructor.
Qed.

Lemma lt_irrefl_eq a b : (a == b)%num -> ~ (a < b)%num.
Proof.
  destruct a, b; simpl; intros H Hlt; inversion Hlt; subst; try contradiction.
  lra.
Qed.

Lemma lt_not_nan_l a b : (a < b)%num -> a <> NaN.
Proof. intros H; inversion H; congruence. Qed.

Lemma lt_eq_compat_l a a' b : (a == a')%num -> (a < b)%num -> (a' < b)%num.
Proof.
  destruct a, a'; simpl; intros He H; try contradiction; auto;
    inversion H; subst; constructor. lra.
Qed.

(** ** Ensemble probabilities *)

Section Probability.

Variables (forecast : DailyForecast) (metric : Metric).

Lemma filter_Counts (f : num -> bool) (P : num -> Prop) (l : list num) :
  (forall v, f v = true <-> P v) ->
  Counts P l (length (List.filter f l)).
Proof.
  intros Hf. induction l as [|a l IH]; simpl.
  - constructor.
  - destruct (f a) eqn:E; simpl.
    + apply Counts_in; auto. now apply Hf.
    + apply Counts_out; auto. intros HP. apply Hf in HP. congruence.
Qed.

Lemma Counts_fun {A} (P : A -> Prop) (l : list A) n m :
  Counts P l n -> Counts P l m -> n = m.
Proof.
  intros Hn; revert m. induction Hn; intros m Hm; inversion Hm; subst; auto;
    contradiction.
Qed.

Lemma in_bracket_test bmin bmax v :
  (v >=? bmin)%num && (v <? bmax)%num = true <-> in_bracket bmin bmax v.
Proof.
  unfold in_bracket. rewrite andb_true_iff, geb_le, ltb_lt. tauto.
Qed.

Lemma of_nat_div_fin (a n : nat) :
  n <> 0%nat ->
  (Num.of_nat a / Num.of_nat n)%num
  = Fin (inject_Z (Z.of_nat a) / inject_Z (Z.of_nat n)).
Proof.
  intros Hn. unfold Num.of_nat, Num.of_Z. simpl.
  assert (H : 0 < inject_Z (Z.of_nat n)).
  { change 0 with (inject_Z 0). rewrite <- Zlt_Qlt. lia. }
  now rewrite (sgn_pos _ H).
Qed.

(** C1. For bounds [bracketMin < bracketMax], [calcBucketProbability]
    counts exactly the members [v] with [bracketMin <= v < bracketMax]: a
    member equal to [bracketMin] is counted and a member equal to
    [bracketMax] is not; the probability is that count divided by the number
    of members; and for an empty member array the result has probability 0
    and member count 0 (no division takes place). *)
Theorem calcBucketProbability_counts (bracketMin bracketMax : num) :
  (bracketMin < bracketMax)%num ->
  let temps := temps_of forecast metric in
  let r := calcBucketProbability forecast metric bracketMin bracketMax in
  Counts (in_bracket bracketMin bracketMax) temps (memberCount r)
  /\ (forall v, (v == bracketMin)%num -> in_bracket bracketMin bracketMax v)
  /\ (forall v, (v == bracketMax)%num -> ~ in_bracket bracketMin bracketMax v)
  /\ (temps <> [] ->
      probability r
      = Fin (inject_Z (Z.of_nat (memberCount r))
             / inject_Z (Z.of_nat (length temps))))
  /\ (temps = [] -> probability r = Fin 0 /\ memberCount r = 0%nat).
Proof.
  intros Hlt temps r. subst r. unfold calcBucketProbability. fold temps.
  split; [|split; [|split; [|split]]].
  - destruct temps as [|a l] eqn:E; simpl Nat.eqb; cbv iota.
    + constructor.
    + cbn [memberCount]. apply filter_Counts. intros v. apply in_bracket_test.
  - intros v Hv. split.
    + apply le_refl_eq.
      * now apply lt_not_nan_l in Hlt.
      * now symmetry.
    + apply lt_eq_compat_l with (a := bracketMin); [now symmetry | exact Hlt].
  - intros v Hv [_ H]. revert H. now apply lt_irrefl_eq.
  - intros Hne. destruct temps as [|a l] eqn:E; [congruence|].
    simpl Nat.eqb; cbv iota. cbn [probability memberCount].
    now apply of_nat_div_fin.
  - intros H. rewrite H. simpl. auto.
Qed.

Lemma filter_ge_lt_length (t : num) (l : list num) :
  t <> NaN -> Forall (fun v => v <> NaN) l ->
  (length (List.filter (fun v => (v >=? t)%num) l)
   + length (List.filter (fun v => (v <? t)%num) l))%nat = length l.
Proof.
  intros Ht Hl. induction Hl as [|a l Ha Hl IH]; simpl; auto.
  rewrite (geb_ltb_negb a t Ha Ht).
  destruct (a >=? t)%num; simpl; lia.
Qed.

(** C2. For a non-empty member array and a threshold [t], in exact
    arithmetic (members and threshold are numbers, none of them [NaN]),
    [calcAboveProbability + calcBelowProbability] is exactly 1. *)
Theorem above_plus_below_is_one (t : num) :
  temps_of forecast metric <> [] ->
  t <> NaN ->
  Forall (fun v => v <> NaN) (temps_of forecast metric) ->
  (calcAboveProbability forecast metric t + calcBelowProbability forecast metric t
   == Fin 1)%num.
Proof.
  intros Hne Ht Hall.
  unfold calcAboveProbability, calcBelowProbability.
  pose proof (filter_ge_lt_length t _ Ht Hall) as Hsum.
  destruct (temps_of forecast metric) as [|a l] eqn:E; [congruence|].
  set (n := length (a :: l)) in *.
  assert (Hn : n <> 0%nat) by (subst n; simpl; lia).
  replace (Nat.eqb n 0) with false by (symmetry; now apply Nat.eqb_neq).
  set (x := length (List.filter _ _)) in *.
  set (y := length (List.filter (fun v => (v <? t)%num) _)) in *.
  rewrite !of_nat_div_fin by assumption. cbn [Num.add Num.eq].
  assert (Hq : inject_Z (Z.of_nat x) + inject_Z (Z.of_nat y) == inject_Z (Z.of_nat n)).
  { rewrite <- inject_Z_plus, <- Nat2Z.inj_add, Hsum. reflexivity. }
  assert (Hpos : ~ inject_Z (Z.of_nat n) == 0).
  { change 0 with (inject_Z 0). rewrite inject_Z_injective. lia. }
  rewrite <- Hq in Hpos |- *. field. exact Hpos.
Qed.

End Probability.

(** ** Consensus *)


Lemma tierOf_rule (models agreeing : nat) :
  (1 <= models)%nat ->
  let ratio := inject_Z (Z.of_nat agreeing) / inject_Z (Z.of_nat models) in
  TierRule models ratio
    (fst (tierOf models (Num.of_nat agreeing / Num.of_nat models)%num))
    (snd (tierOf models (Num.of_nat agreeing / Num.of_nat models)%num)).
Proof.
  intros Hm ratio. rewrite of_nat_div_fin by lia. fold ratio.
  unfold tierOf, lit. cbn [Num.eqb Num.geb Num.leb].
  destruct (2 <=? models)%nat eqn:E2; cbn [andb].
  - apply Nat.leb_le in E2.
    destruct (Qeq_bool ratio (10 # 10)) eqn:E1.
    { apply Qeq_bool_iff in E1. cbn. apply rule_LOCK; auto. rewrite E1. reflexivity. }
    assert (N1 : ~ ratio == 1).
    { intros H. apply Qeq_bool_neq in E1. apply E1. rewrite H. reflexivity. }
    destruct (Qle_bool (66 # 100) ratio) eqn:E3.
    { apply Qle_bool_iff in E3. cbn. apply rule_STRONG; tauto. }
    assert (N3 : ~ 66 # 100 <= ratio).
    { intros H. apply Qle_bool_iff in H. congruence. }
    replace (models =? 1)%nat with false by (symmetry; apply Nat.eqb_neq; lia).
    destruct (Qle_bool (5 # 10) ratio) eqn:E5; cbn.
    + apply Qle_bool_iff in E5. apply rule_NEAR_SAFE; try tauto; lia.
    + apply rule_SKIP; try tauto; try lia.
      intros H. apply Qle_bool_iff in H. congruence.
  - apply Nat.leb_gt in E2.
    replace (models =? 1)%nat with true by (symmetry; apply Nat.eqb_eq; lia).
    cbn. apply rule_SAFE; try lia.
Qed.

Lemma calculateConsensus_fields_gen gfsEnsemble ecmwfEnsemble date metric
    bracketType bracketMin bracketMax nwsHigh p :
  let ecmwfProb :=
    match ecmwfEnsemble with
    | Some e => getModelProbability e date metric bracketType bracketMin bracketMax
    | None => None
    end in
  let tiebreaker := nwsInBracket nwsHigh metric bracketType bracketMin bracketMax in
  getModelProbability gfsEnsemble date metric bracketType bracketMin bracketMax = Some p ->
  exists r,
    calculateConsensus gfsEnsemble ecmwfEnsemble nwsHigh date metric bracketType
      bracketMin bracketMax = Some r
    /\ gfsProbability r = p
    /\ ecmwfProbability r = ecmwfProb
    /\ cr_nwsHigh r = nwsHigh
    /\ modelsAgreeing r
       = (1 + agrees (option_map vote ecmwfProb) (vote p) + agrees tiebreaker (vote p))%nat
    /\ consensusProbability r
       = match ecmwfProb with
         | Some e => ((p * lit 10 10 + e * lit 12 10) / (Num.zero + lit 10 10 + lit 12 10))%num
         | None => ((p * lit 10 10) / (Num.zero + lit 10 10))%num
         end
    /\ (confidence r, kellyMultiplier r)
       = tierOf (modelsConsulted ecmwfProb tiebreaker)
           (Num.of_nat (modelsAgreeing r)
            / Num.of_nat (modelsConsulted ecmwfProb tiebreaker))%num.
Proof.
  intros ecmwfProb tiebreaker. unfold calculateConsensus. intros ->.
  fold ecmwfProb. fold tiebreaker.
  unfold modelsConsulted, agrees, vote. fold probThreshold.
  destruct ecmwfProb as [e|], tiebreaker as [t|]; cbn [option_map];
    repeat match goal with
           | |- context [Bool.eqb ?a ?b] => destruct (Bool.eqb a b)
           end;
    match goal with
    | |- context [tierOf ?m ?r] => destruct (tierOf m r) as [c k] eqn:Et
    end;
    eexists; (split; [reflexivity|]); cbn; repeat split; auto.
Qed.

Section Consensus.

Variables (gfsEnsemble : EnsembleForecast) (ecmwfEnsemble : option EnsembleForecast).
Variables (nwsHigh : option num) (date : jsstring) (metric : Metric).
Variables (bracketType : BracketType) (bracketMin bracketMax : num).

Local Abbreviation gfsProb :=
  (getModelProbability gfsEnsemble date metric bracketType bracketMin bracketMax).
Local Abbreviation ecmwfProb :=
  (match ecmwfEnsemble with
   | Some e => getModelProbability e date metric bracketType bracketMin bracketMax
   | None => None
   end).
Local Abbreviation tiebreaker :=
  (nwsInBracket nwsHigh metric bracketType bracketMin bracketMax).
Local Abbreviation consensus :=
  (calculateConsensus gfsEnsemble ecmwfEnsemble nwsHigh date metric bracketType
     bracketMin bracketMax).

Lemma calculateConsensus_fields p :
  gfsProb = Some p ->
  exists r, consensus = Some r
    /\ gfsProbability r = p
    /\ ecmwfProbability r = ecmwfProb
    /\ cr_nwsHigh r = nwsHigh
    /\ modelsAgreeing r
       = (1 + agrees (option_map vote ecmwfProb) (vote p) + agrees tiebreaker (vote p))%nat
    /\ consensusProbability r
       = match ecmwfProb with
         | Some e => ((p * lit 10 10 + e * lit 12 10) / (Num.zero + lit 10 10 + lit 12 10))%num
         | None => ((p * lit 10 10) / (Num.zero + lit 10 10))%num
         end
    /\ (confidence r, kellyMultiplier r)
       = tierOf (modelsConsulted ecmwfProb tiebreaker)
           (Num.of_nat (modelsAgreeing r)
            / Num.of_nat (modelsConsulted ecmwfProb tiebreaker))%num.
Proof. apply calculateConsensus_fields_gen. Qed.

(** C4. [calculateConsensus] returns [null] if and only if the primary
    (GFS) probability is unavailable for the date; otherwise it produces a
    result whose tier and Kelly multiplier are those of the first matching
    rule, in the order LOCK (at least two models, ratio 1, multiplier 1.5),
    STRONG (at least two models, ratio at least 0.66, multiplier 1.2), SAFE
    (exactly one model, multiplier 1.0), NEAR-SAFE (ratio at least 0.5,
    multiplier 0.7), SKIP (multiplier 0), where the ratio is the number of
    agreeing models divided by the number of models consulted. *)
Theorem calculateConsensus_tier :
  (consensus = None <-> gfsProb = None)
  /\ (forall p, gfsProb = Some p ->
      exists r, consensus = Some r
        /\ let models := modelsConsulted (ecmwfProbability r) tiebreaker in
           let agreementRatio :=
             inject_Z (Z.of_nat (modelsAgreeing r)) / inject_Z (Z.of_nat models) in
           TierRule models agreementRatio (confidence r) (kellyMultiplier r)).
Proof.
  split.
  - split.
    + intros H. destruct gfsProb as [p|] eqn:E; auto.
      destruct (calculateConsensus_fields p E) as (r & Hr & _). congruence.
    + unfold calculateConsensus. now intros ->.
  - intros p Hp.
    destruct (calculateConsensus_fields p Hp) as (r & Hr & _ & He & _ & _ & _ & Ht).
    exists r. split; auto. rewrite He. cbv zeta.
    pose proof (tierOf_rule (modelsConsulted ecmwfProb tiebreaker) (modelsAgreeing r)) as H.
    cbv zeta in H. rewrite <- Ht in H. cbn [fst snd] in H. apply H.
    unfold modelsConsulted. lia.
Qed.


End Consensus.

(** ** Edge selection *)

Lemma gtb_lt a b : (a >? b)%num = true <-> (b < a)%num.
Proof. unfold Num.gtb. apply ltb_lt. Qed.

Lemma pick_yes_test yesEdge noEdge :
  (yesEdge >=? noEdge)%num && (yesEdge >? Num.zero)%num = true
  <-> (noEdge <= yesEdge)%num /\ (Num.zero < yesEdge)%num.
Proof. rewrite andb_true_iff, geb_le, gtb_lt. tauto. Qed.

(** What the loop body of [generateSignals] did when it built a signal. *)
Lemma signalFor_inv host config openIds gfsEnsembles ecmwfEnsembles market uuid s :
  signalFor host config openIds gfsEnsembles ecmwfEnsembles market uuid = Some s ->
  exists gfsEnsemble consensus,
    gfsEnsembles !! city market = Some gfsEnsemble
    /\ calculateConsensus gfsEnsemble
         (match ecmwfEnsembles with Some m => m !! city market | None => None end)
         None (date market) (metric market) (bracketType market)
         (bracketMin market) (bracketMax market) = Some consensus
    /\ confidence consensus <> SKIP
    /\ let p := consensusProbability consensus in
       let yesEdge := (p - yesPrice market)%num in
       let noEdge := ((Num.one - p) - noPrice market)%num in
       let pickYes := (yesEdge >=? noEdge)%num && (yesEdge >? Num.zero)%num in
       (if pickYes then
          sig_side s = YES /\ sig_edge s = yesEdge
          /\ sig_modelProbability s = p /\ sig_marketPrice s = yesPrice market
        else
          (noEdge >? Num.zero)%num = true
          /\ sig_side s = NO /\ sig_edge s = noEdge
          /\ sig_modelProbability s = (Num.one - p)%num
          /\ sig_marketPrice s = noPrice market)
       /\ (sig_edge s <? minEdgePct config / Num.of_Z 100)%num = false
       /\ let sizing :=
            kellySize (sig_modelProbability s) (sig_marketPrice s)
              (bankrollUsdc config) config in
          sig_size s
          = (Num.floor
               (Num.min (size sizing * kellyMultiplier consensus)
                  (bankrollUsdc config * maxPositionPct config)
                * Num.of_Z 100) / Num.of_Z 100)%num
          /\ (sig_size s <? lit 50 100)%num = false
          /\ sig_kelly s = rawKelly sizing
          /\ sig_confidence s = getConfidence (sig_edge s) (Some (confidence consensus))
          /\ sig_id s = uuid /\ sig_market s = market
          /\ createdAt s = Date_now host.
Proof.
  unfold signalFor.
  destruct (bool_decide _); [discriminate|].
  destruct (volume market <? MIN_VOLUME)%num; [discriminate|].
  destruct (_ <? _)%num; [discriminate|].
  destruct (_ >? _)%num; [discriminate|].
  destruct (gfsEnsembles !! city market) as [g|] eqn:Eg; [|discriminate].
  destruct (calculateConsensus _ _ _ _ _ _ _ _) as [c|] eqn:Ec; [|discriminate].
  destruct (tier_eqb (confidence c) SKIP) eqn:Et; [discriminate|].
  intros H. exists g, c. split; [reflexivity|]. split; [exact Ec|].
  split; [intros E; rewrite E in Et; discriminate|].
  cbv zeta.
  destruct ((_ >=? _)%num && (_ >? _)%num) eqn:Ey.
  - cbv beta iota in H.
    repeat match type of H with
           | (if ?b then None else _) = Some _ => destruct b eqn:?; [discriminate|]
           end.
    injection H as Hs. subst s. cbn. repeat match goal with |- _ /\ _ => split end; auto.
  - cbv beta iota in H.
    match type of H with
    | context [if ?b then Some _ else None] => destruct b eqn:En; [|discriminate]
    end.
    cbv beta iota in H.
    repeat match type of H with
           | (if ?b then None else _) = Some _ => destruct b eqn:?; [discriminate|]
           end.
    injection H as Hs. subst s. cbn. repeat match goal with |- _ /\ _ => split end; auto.
Qed.


(** ** Kelly sizing *)

Section Sizing.

Variables (p price bankroll : num) (config : AppConfig).

Local Abbreviation b := ((Num.one - price) / price)%num.
Local Abbreviation raw := ((b * p - (Num.one - p)) / b)%num.

(** The three cases of [kellySize]. *)
Lemma kellySize_cases :
  ((b <= Num.zero)%num -> size (kellySize p price bankroll config) = Num.zero)
  /\ (~ (b <= Num.zero)%num -> (raw <= Num.zero)%num ->
      size (kellySize p price bankroll config) = Num.zero)
  /\ (~ (b <= Num.zero)%num -> ~ (raw <= Num.zero)%num ->
      size (kellySize p price bankroll config)
      = Num.max
          (Num.floor (Num.min (raw * kellyFraction config) (maxPositionPct config)
                      * bankroll * Num.of_Z 100) / Num.of_Z 100)%num
          Num.zero).
Proof.
  unfold kellySize. cbv zeta.
  destruct (b <=? Num.zero)%num eqn:Eb.
  - apply leb_le in Eb. repeat split; intros; auto; contradiction.
  - assert (Nb : ~ (b <= Num.zero)%num) by (rewrite <- leb_le; congruence).
    destruct (raw <=? Num.zero)%num eqn:Er.
    + apply leb_le in Er. repeat split; intros; auto; contradiction.
    + assert (Nr : ~ (raw <= Num.zero)%num) by (rewrite <- leb_le; congruence).
      repeat split; intros; auto; contradiction.
Qed.

End Sizing.

(** A price of 1.0 gives size 0, whatever the probability. *)
Lemma kellySize_price_one p bankroll config :
  size (kellySize p (Fin 1) bankroll config) = Num.zero.
Proof. reflexivity. Qed.

Lemma div_fin (a d : Q) : ~ d == 0 -> (Fin a / Fin d)%num = Fin (a / d).
Proof.
  intros Hd. cbn [Num.div].
  destruct (Num.sgn d) eqn:E; auto. apply sgn_zero in E. contradiction.
Qed.

Lemma min_fin (a c : Q) : exists m, Num.min (Fin a) (Fin c) = Fin m.
Proof. cbn. destruct (Qle_bool a c); eauto. Qed.

Lemma floor_cents_zero (q : Q) :
  q == 0 ->
  (Num.max (Num.floor (Fin q) / Num.of_Z 100) Num.zero == Fin 0)%num.
Proof.
  intros H. unfold Num.floor, Num.of_Z.
  rewrite div_fin by discriminate.
  rewrite (Qfloor_comp _ _ H).
  reflexivity.
Qed.

(** A bankroll of 0 gives size 0 for every finite probability and finite
    configuration, at every price other than 0. *)
Lemma kellySize_zero_bankroll (p price kf cap : Q) config :
  ~ price == 0 ->
  kellyFraction config = Fin kf -> maxPositionPct config = Fin cap ->
  (size (kellySize (Fin p) (Fin price) (Fin 0) config) == Fin 0)%num.
Proof.
  intros Hprice Hkf Hcap. unfold kellySize. rewrite Hkf, Hcap.
  unfold Num.one, Num.sub. cbn [Num.opp Num.add].
  rewrite (div_fin _ _ Hprice).
  set (b := (1 + - price) / price).
  destruct (Fin b <=? Num.zero)%num eqn:Eb; [reflexivity|].
  assert (Hb : ~ b == 0).
  { intros H0. cbn in Eb. rewrite H0 in Eb. discriminate. }
  cbn [Num.mul Num.add]. rewrite (div_fin _ _ Hb).
  set (raw := (b * p + - (1 + - p)) / b).
  destruct (Fin raw <=? Num.zero)%num eqn:Er; [reflexivity|].
  cbn [size Num.mul].
  destruct (min_fin (raw * kf) cap) as [m ->].
  cbn [Num.mul]. apply floor_cents_zero. unfold inject_Z. ring.
Qed.

(** C7. [kellySize(0.6, 0, 0, DEFAULT_CONFIG)]: at price 0 the net odds
    are [+Infinity], the raw Kelly fraction is [NaN], neither guard
    [b <= 0] nor [rawKelly <= 0] holds, and the size is [NaN], not 0. *)
Theorem kellySize_zero_price_zero_bankroll :
  size (kellySize (lit 6 10) (Fin 0) (Fin 0) DEFAULT_CONFIG) = NaN
  /\ ((Num.one - Fin 0) / Fin 0)%num = PInf
  /\ rawKelly (kellySize (lit 6 10) (Fin 0) (Fin 0) DEFAULT_CONFIG) = NaN.
Proof. repeat split. Qed.

(** ** Signal generation *)

Lemma signalsFrom_In host config openIds gfsEnsembles ecmwfEnsembles markets k s :
  In s (signalsFrom host config openIds gfsEnsembles ecmwfEnsembles markets k) ->
  exists market uuid,
    In market markets
    /\ signalFor host config openIds gfsEnsembles ecmwfEnsembles market uuid = Some s.
Proof.
  revert k. induction markets as [|m ms IH]; intros k; simpl; [tauto|].
  destruct (signalFor _ _ _ _ _ m _) as [s'|] eqn:E.
  - intros [<-|H].
    + exists m, (randomUUID host k). auto.
    + destruct (IH _ H) as (m' & u & Hin & Hs). exists m', u. auto.
  - intros H. destruct (IH _ H) as (m' & u & Hin & Hs). exists m', u. auto.
Qed.


Lemma signalFor_uuid host config openIds gfsEnsembles ecmwfEnsembles market uuid :
  signalFor host config openIds gfsEnsembles ecmwfEnsembles market uuid
  = option_map (with_id uuid)
      (signalFor host config openIds gfsEnsembles ecmwfEnsembles market []).
Proof.
  unfold signalFor.
  repeat first
    [ match goal with
      | |- context [if ?b then None else _] => destruct b; [reflexivity|]
      end
    | match goal with
      | |- context [match ?o with Some _ => _ | None => None end] =>
          destruct o as [?|]; [|reflexivity]
      end
    | match goal with
      | x : (_ * _)%type |- _ => destruct x
      end ].
  reflexivity.
Qed.

Lemma signalFor_clock h1 h2 config openIds gfsEnsembles ecmwfEnsembles market uuid :
  Date_now h1 = Date_now h2 ->
  (forall s, Date_getTime h1 s = Date_getTime h2 s) ->
  signalFor h1 config openIds gfsEnsembles ecmwfEnsembles market uuid
  = signalFor h2 config openIds gfsEnsembles ecmwfEnsembles market uuid.
Proof. intros Hn Ht. unfold signalFor. now rewrite Hn, !Ht. Qed.

Lemma signalsFrom_up_to_id h1 h2 config openIds gfsEnsembles ecmwfEnsembles markets :
  Date_now h1 = Date_now h2 ->
  (forall s, Date_getTime h1 s = Date_getTime h2 s) ->
  forall k1 k2,
    List.map (with_id [])
      (signalsFrom h1 config openIds gfsEnsembles ecmwfEnsembles markets k1)
    = List.map (with_id [])
        (signalsFrom h2 config openIds gfsEnsembles ecmwfEnsembles markets k2).
Proof.
  intros Hn Ht. induction markets as [|m ms IH]; intros k1 k2; simpl; auto.
  rewrite (signalFor_uuid h1), (signalFor_uuid h2).
  rewrite (signalFor_clock h1 h2) by assumption.
  destruct (signalFor h2 _ _ _ _ m []) as [s|]; simpl; auto.
  f_equal. apply IH.
Qed.

Lemma signalsFrom_ids host config openIds gfsEnsembles ecmwfEnsembles markets k :
  List.map sig_id (signalsFrom host config openIds gfsEnsembles ecmwfEnsembles markets k)
  = List.map (randomUUID host)
      (seq k (length (signalsFrom host config openIds gfsEnsembles ecmwfEnsembles markets k))).
Proof.
  revert k. induction markets as [|m ms IH]; intros k; simpl; auto.
  destruct (signalFor _ _ _ _ _ m _) as [s|] eqn:E; simpl; auto.
  f_equal; auto.
  apply signalFor_inv in E. destruct E as (g & c & _ & _ & _ & E).
  cbv zeta in E. tauto.
Qed.

Lemma matchCity_host h1 h2 raw :
  (forall s, toLowerCase h1 s = toLowerCase h2 s) ->
  matchCity h1 raw = matchCity h2 raw.
Proof. intros H. unfold matchCity. now rewrite H. Qed.

Lemma parseDate_host h1 h2 raw :
  Date_fullYear h1 = Date_fullYear h2 ->
  (forall s, toLowerCase h1 s = toLowerCase h2 s) ->
  parseDate h1 raw = parseDate h2 raw.
Proof.
  intros Hy H. unfold parseDate.
  destruct (split_spaces _ _ _) as [|p0 [|p1 ps]]; auto.
  now rewrite H, Hy.
Qed.

Lemma parseMarketTitle_host h1 h2 raw :
  Date_fullYear h1 = Date_fullYear h2 ->
  (forall s, toLowerCase h1 s = toLowerCase h2 s) ->
  parseMarketTitle h1 raw = parseMarketTitle h2 raw.
Proof.
  intros Hy H. unfold parseMarketTitle.
  repeat match goal with
         | |- context [exec ?re ?t] => destruct (exec re t) as [m|]
         end; auto;
    (destruct (stringArg (capture m 1)) as [c|]; [|reflexivity]);
    cbn [mbind result_bind];
    rewrite (matchCity_host h1 h2 c H);
    (destruct (truthy (matchCity h2 c)); [|reflexivity]);
    match goal with
    | |- context [stringArg ?x] => destruct (stringArg x) as [d|]; [|reflexivity]
    end;
    cbn [mbind result_bind];
    now rewrite (parseDate_host h1 h2 d Hy H).
Qed.

(** C9 (as amended). The pipeline is deterministic given its inputs and
    what it reads from the host: two runs of [generateSignals] on the same
    markets, forecasts, open positions and configuration, at the same clock
    reading, emit signal lists that are equal in every field except the
    identifiers, which are the successive results of [crypto.randomUUID()];
    and [parseMarketTitle] is a function of the market and the current
    year. *)
Theorem generateSignals_deterministic_up_to_id h1 h2 markets gfsEnsembles config
    openPositions ecmwfEnsembles :
  Date_now h1 = Date_now h2 ->
  (forall s, Date_getTime h1 s = Date_getTime h2 s) ->
  List.map (with_id [])
    (generateSignals h1 markets gfsEnsembles config openPositions ecmwfEnsembles)
  = List.map (with_id [])
      (generateSignals h2 markets gfsEnsembles config openPositions ecmwfEnsembles)
  /\ List.map sig_id
       (generateSignals h1 markets gfsEnsembles config openPositions ecmwfEnsembles)
     = List.map (randomUUID h1)
         (seq 0 (length (generateSignals h1 markets gfsEnsembles config
                           openPositions ecmwfEnsembles)))
  /\ (Date_fullYear h1 = Date_fullYear h2 ->
      (forall s, toLowerCase h1 s = toLowerCase h2 s) ->
      forall raw, parseMarketTitle h1 raw = parseMarketTitle h2 raw).
Proof.
  intros Hn Ht. unfold generateSignals. split; [|split].
  - now apply signalsFrom_up_to_id.
  - apply signalsFrom_ids.
  - intros Hy Hl raw. now apply parseMarketTitle_host.
Qed.

(** C9, counterexample: the same markets, forecasts, open positions and
    configuration, read at the same instant, give two different signal
    lists on two hosts whose [crypto.randomUUID()] differ. *)
Lemma generateSignals_not_deterministic :
  generateSignals hostA [marketNo] fixtureEnsembles DEFAULT_CONFIG [] None
  <> generateSignals hostB [marketNo] fixtureEnsembles DEFAULT_CONFIG [] None.
Proof. vm_compute. discriminate. Qed.


(** A market whose tokens are missing is parsed with both prices 0
    ([buildParsed] defaults them); the loop then sizes it at price 0, and
    emits a signal whose size is [NaN], which the test [size < 0.50] does
    not catch. *)
Lemma generateSignals_emits_NaN_size :
  exists s,
    generateSignals hostA [makeMarket (Fin 0) (Fin 0)] fixtureEnsembles
      DEFAULT_CONFIG [] None = [s]
    /\ sig_side s = YES /\ sig_marketPrice s = Fin 0 /\ sig_size s = NaN.
Proof. eexists. split; [vm_compute; reflexivity|]. repeat split. Qed.

(** ** Regular expressions *)

Lemma segs_BETWEEN_pattern : RE_BETWEEN = segs_pattern segs_BETWEEN.
Proof. reflexivity. Qed.

Lemma segs_OR_BELOW_pattern : RE_OR_BELOW = segs_pattern (segs_OR "below").
Proof. reflexivity. Qed.

Lemma segs_OR_HIGHER_pattern : RE_OR_HIGHER = segs_pattern (segs_OR "higher").
Proof. reflexivity. Qed.

Lemma orElse_Some {A} (a b : option A) (x : A) :
  orElse a b = Some x -> a = Some x \/ b = Some x.
Proof. destruct a; simpl; auto. Qed.

Lemma run_star k greedy p s st :
  run (Star k greedy :: p) s st
  = match s with
    | c :: s' =>
        if cls_match k c then
          if greedy
          then orElse (run (Star k greedy :: p) s' (push c st)) (run p s st)
          else orElse (run p s st) (run (Star k greedy :: p) s' (push c st))
        else run p s st
    | [] => run p s st
    end.
Proof. destruct s; reflexivity. Qed.

(** The matcher is sound: what it consumes is matched by the pattern. *)
Lemma run_sound p : forall s st m,
  run p s st = Some m ->
  exists w rest st', s = w ++ rest /\ Matches p st w st' /\ m = closed_groups st'.
Proof.
  induction p as [|i p IH]; intros s st m H.
  - simpl in H. injection H as Hm. exists [], s, st. simpl. auto.
  - destruct i as [k|k g|k| |].
    + simpl in H. destruct s as [|c s]; [discriminate|].
      destruct (cls_match k c) eqn:E; [|discriminate].
      apply IH in H as (w & rest & st' & -> & HM & ->).
      exists (c :: w), rest, st'. simpl. eauto 10.
    + revert st H. induction s as [|c s IHs]; intros st H; rewrite run_star in H.
      * apply IH in H as (w & rest & st' & Hs & HM & ->).
        exists w, rest, st'. simpl. split; auto. split; auto.
        exists [], w. repeat split; auto. constructor.
      * assert (Hskip : run p (c :: s) st = Some m ->
                  exists w rest st', c :: s = w ++ rest
                    /\ Matches (Star k g :: p) st w st' /\ m = closed_groups st').
        { intros H'. apply IH in H' as (w & rest & st' & Hs & HM & ->).
          exists w, rest, st'. split; auto. split; auto.
          exists [], w. repeat split; auto. constructor. }
        assert (Hstep : run (Star k g :: p) s (push c st) = Some m ->
                  cls_match k c = true ->
                  exists w rest st', c :: s = w ++ rest
                    /\ Matches (Star k g :: p) st w st' /\ m = closed_groups st').
        { intros H' Hc. apply IHs in H' as (w & rest & st' & -> & HM & ->).
          destruct HM as (w1 & w2 & -> & Hall & HM).
          exists (c :: w1 ++ w2), rest, st'. split; auto. split; auto.
          exists (c :: w1), w2. repeat split; auto. constructor; auto. }
        destruct (cls_match k c) eqn:E; auto.
        destruct g; apply orElse_Some in H as [H|H]; auto.
    + simpl in H. destruct s as [|c s].
      * apply IH in H as (w & rest & st' & Hs & HM & ->).
        exists w, rest, st'. simpl. auto.
      * assert (Hskip : run p (c :: s) st = Some m ->
                  exists w rest st', c :: s = w ++ rest
                    /\ Matches (Opt k :: p) st w st' /\ m = closed_groups st').
        { intros H'. apply IH in H' as (w & rest & st' & Hs & HM & ->).
          exists w, rest, st'. simpl. auto. }
        destruct (cls_match k c) eqn:E; auto.
        apply orElse_Some in H as [H|H]; auto.
        apply IH in H as (w & rest & st' & -> & HM & ->).
        exists (c :: w), rest, st'. simpl. split; auto. split; auto.
        right. eauto 10.
    + simpl in H. apply IH in H as (w & rest & st' & -> & HM & ->).
      exists w, rest, st'. simpl. auto.
    + simpl in H. apply IH in H as (w & rest & st' & -> & HM & ->).
      exists w, rest, st'. simpl. auto.
Qed.

Lemma exec_sound p : forall s m,
  exec p s = Some m ->
  exists pre w post st',
    s = pre ++ w ++ post /\ Matches p caps0 w st' /\ m = closed_groups st'.
Proof.
  induction s as [|c s IH]; intros m H; simpl in H.
  - destruct (run p [] caps0) eqn:E; [|discriminate].
    injection H as ->. apply run_sound in E as (w & rest & st' & Hs & HM & ->).
    exists [], w, rest, st'. auto.
  - destruct (run p (c :: s) caps0) eqn:E.
    + injection H as ->. apply run_sound in E as (w & rest & st' & Hs & HM & ->).
      exists [], w, rest, st'. auto.
    + apply IH in H as (pre & w & post & st' & -> & HM & ->).
      exists (c :: pre), w, post, st'. auto.
Qed.

Lemma Matches_lang p : forall st w st', Matches p st w st' -> lang p w.
Proof.
  induction p as [|i p IH]; intros st w st' H; simpl in *.
  - tauto.
  - destruct i as [k|k g|k| |].
    + destruct H as (c & w' & -> & Hc & H). eauto 10.
    + destruct H as (w1 & w2 & -> & Hall & H). eauto 10.
    + destruct H as [H|(c & w' & -> & Hc & H)]; eauto 10.
    + eauto.
    + eauto.
Qed.



(** *** Captures *)

Lemma pushes_app w1 w2 st : pushes (w1 ++ w2) st = pushes w2 (pushes w1 st).
Proof. unfold pushes. apply fold_left_app. Qed.

Lemma pushes_caps w : forall st,
  closed_groups (pushes w st) = closed_groups st
  /\ open_group (pushes w st) = option_map (app (rev w)) (open_group st).
Proof.
  induction w as [|c w IH]; intros st.
  - simpl. split; auto. now destruct (open_group st).
  - change (pushes (c :: w) st) with (pushes w (push c st)).
    destruct (IH (push c st)) as [-> ->]. simpl. split; auto.
    destruct (open_group st); simpl; auto. now rewrite <- app_assoc.
Qed.

Lemma Matches_app p q : forall st w st'',
  Matches (p ++ q) st w st'' ->
  exists w1 w2 st', w = w1 ++ w2 /\ Matches p st w1 st' /\ Matches q st' w2 st''.
Proof.
  induction p as [|i p IH]; intros st w st'' H.
  - exists [], w, st. simpl. auto.
  - destruct i as [k|k g|k| |]; simpl in H.
    + destruct H as (c & w' & -> & Hc & H).
      apply IH in H as (w1 & w2 & st' & -> & H1 & H2).
      exists (c :: w1), w2, st'. simpl. eauto 10.
    + destruct H as (u & w' & -> & Hall & H).
      apply IH in H as (w1 & w2 & st' & -> & H1 & H2).
      exists (u ++ w1), w2, st'. rewrite app_assoc. simpl. eauto 10.
    + destruct H as [H|(c & w' & -> & Hc & H)];
        apply IH in H as (w1 & w2 & st' & -> & H1 & H2).
      * exists w1, w2, st'. simpl. auto.
      * exists (c :: w1), w2, st'. simpl. split; auto. split; auto. right. eauto 10.
    + apply IH in H as (w1 & w2 & st' & -> & H1 & H2). exists w1, w2, st'. auto.
    + apply IH in H as (w1 & w2 & st' & -> & H1 & H2). exists w1, w2, st'. auto.
Qed.

Lemma Matches_flat p : forall st w st',
  flat p = true -> Matches p st w st' -> st' = pushes w st.
Proof.
  induction p as [|i p IH]; intros st w st' Hf H; simpl in *.
  - now destruct H as [-> ->].
  - apply andb_true_iff in Hf as [Hi Hf].
    destruct i as [k|k g|k| |]; try discriminate.
    + destruct H as (c & w' & -> & _ & H). now apply IH in H.
    + destruct H as (w1 & w2 & -> & _ & H). apply IH in H; auto.
      now rewrite pushes_app.
    + destruct H as [H|(c & w' & -> & _ & H)]; now apply IH in H.
Qed.

Lemma Matches_group p st w st' :
  flat p = true -> Matches (group p) st w st' ->
  lang p w
  /\ closed_groups st' = closed_groups st ++ [w]
  /\ open_group st' = None.
Proof.
  intros Hf H. unfold group in H. simpl in H.
  apply Matches_app in H as (w1 & w2 & st1 & -> & H1 & H2).
  simpl in H2. destruct H2 as [-> ->]. rewrite app_nil_r.
  split; [eapply Matches_lang; eauto|].
  apply Matches_flat in H1; auto. subst st1.
  destruct (pushes_caps w1 (gopen st)) as [Hc Ho].
  unfold gclose. rewrite Hc, Ho. simpl.
  now rewrite app_nil_r, rev_involutive.
Qed.

(** A match of a segmented pattern splits into one word per segment, and
    the captures are the words of the groups. *)
Lemma Matches_segs l : forall st w st',
  Forall seg_flat l -> open_group st = None ->
  Matches (segs_pattern l) st w st' ->
  exists ws,
    w = concat ws
    /\ Forall2 (fun s wi => lang (seg_inner s) wi) l ws
    /\ closed_groups st' = closed_groups st ++ groups_of l ws
    /\ open_group st' = None.
Proof.
  induction l as [|s l IH]; intros st w st' Hl Ho H.
  - simpl in H. destruct H as [-> ->]. exists []. simpl.
    rewrite app_nil_r. auto.
  - inversion Hl as [|? ? Hs Hl']; subst.
    change (segs_pattern (s :: l)) with (seg_pattern s ++ segs_pattern l) in H.
    apply Matches_app in H as (w1 & w2 & st1 & -> & H1 & H2).
    destruct s as [p|p]; simpl in H1.
    + pose proof (Matches_lang _ _ _ _ H1) as HL.
      apply Matches_flat in H1; auto. subst st1.
      destruct (pushes_caps w1 st) as [Hc Ho1]. rewrite Ho in Ho1.
      apply IH in H2 as (ws & -> & HF & Hg & Ho2); auto.
      exists (w1 :: ws). simpl. repeat split; auto.
      now rewrite Hg, Hc.
    + apply Matches_group in H1 as (HL & Hc & Ho1); auto.
      apply IH in H2 as (ws & -> & HF & Hg & Ho2); auto.
      exists (w1 :: ws). simpl. repeat split; auto.
      now rewrite Hg, Hc, <- app_assoc.
Qed.

Lemma exec_segs l s m :
  Forall seg_flat l ->
  exec (segs_pattern l) s = Some m ->
  exists pre ws post,
    s = pre ++ concat ws ++ post
    /\ Forall2 (fun sg wi => lang (seg_inner sg) wi) l ws
    /\ m = groups_of l ws.
Proof.
  intros Hl H. apply exec_sound in H as (pre & w & post & st' & -> & HM & ->).
  apply Matches_segs in HM as (ws & -> & HF & Hg & _); auto.
  exists pre, ws, post. auto.
Qed.

(** *** Languages of the pieces *)

Lemma lang_app p q : forall w,
  lang (p ++ q) w <-> exists w1 w2, w = w1 ++ w2 /\ lang p w1 /\ lang q w2.
Proof.
  induction p as [|i p IH]; intros w.
  - simpl. split.
    + intros H. exists [], w. auto.
    + intros (w1 & w2 & -> & -> & H). auto.
  - destruct i as [k|k g|k| |]; simpl.
    + split.
      * intros (c & w' & -> & Hc & H). apply IH in H as (w1 & w2 & -> & H1 & H2).
        exists (c :: w1), w2. eauto 10.
      * intros (w1 & w2 & -> & (c & w' & -> & Hc & H1) & H2).
        exists c, (w' ++ w2). repeat split; auto. apply IH. eauto.
    + split.
      * intros (u & w' & -> & Hall & H). apply IH in H as (w1 & w2 & -> & H1 & H2).
        exists (u ++ w1), w2. rewrite app_assoc. eauto 10.
      * intros (w1 & w2 & -> & (u & w' & -> & Hall & H1) & H2).
        exists u, (w' ++ w2). rewrite app_assoc. repeat split; auto. apply IH. eauto.
    + split.
      * intros [H|(c & w' & -> & Hc & H)]; apply IH in H as (w1 & w2 & -> & H1 & H2).
        -- exists w1, w2. auto.
        -- exists (c :: w1), w2. split; auto. split; auto. right. eauto.
      * intros (w1 & w2 & -> & [H1|(c & w' & -> & Hc & H1)] & H2).
        -- left. apply IH. eauto.
        -- right. exists c, (w' ++ w2). repeat split; auto. apply IH. eauto.
    + apply IH.
    + apply IH.
Qed.

Lemma lang_chars_list (l : jsstring) : forall w,
  lang (List.map (fun c => One (CChar c)) l) w <-> same_up_to_case w l.
Proof.
  unfold same_up_to_case.
  induction l as [|x l IH]; intros w; simpl.
  - split; [intros ->; constructor | intros H; now inversion H].
  - split.
    + intros (c & w' & -> & Hc & H). constructor.
      * now apply N.eqb_eq in Hc.
      * now apply IH.
    + intros H. inversion H as [|c ? w' ? Hc Hw]; subst.
      exists c, w'. repeat split; auto.
      * now apply N.eqb_eq.
      * now apply IH.
Qed.

Lemma lang_chars s w : lang (chars s) w <-> same_up_to_case w (str s).
Proof. apply lang_chars_list. Qed.

Lemma lang_star k g w : lang [Star k g] w <-> all_in k w.
Proof.
  simpl. split.
  - intros (w1 & w2 & -> & H & ->). now rewrite app_nil_r.
  - intros H. exists w, []. rewrite app_nil_r. auto.
Qed.

Lemma lang_plus k g w : lang (plus k g) w <-> w <> [] /\ all_in k w.
Proof.
  unfold plus. simpl. split.
  - intros (c & w' & -> & Hc & w1 & w2 & -> & H & ->). rewrite app_nil_r.
    split; [discriminate|]. constructor; auto.
  - intros [Hne H]. destruct w as [|c w]; [congruence|].
    inversion H; subst. exists c, w. repeat split; auto.
    exists w, []. rewrite app_nil_r. auto.
Qed.

(** *** Letter case *)













(** ** Title parsing *)

Lemma head_phrase_mentions w :
  lang head_phrase w ->
  exists h sp t rest,
    w = h ++ sp ++ t ++ rest
    /\ same_up_to_case h (str "highest")
    /\ sp <> [] /\ all_in CSpace sp
    /\ same_up_to_case t (str "temperature").
Proof.
  unfold head_phrase. intros H.
  apply lang_app in H as (h & r1 & -> & Hh & H).
  apply lang_app in H as (sp & r2 & -> & Hsp & H).
  apply lang_app in H as (t & r3 & -> & Ht & _).
  apply lang_chars in Hh, Ht. apply lang_plus in Hsp as [Hne Hsp].
  exists h, sp, t, r3. auto.
Qed.

Lemma all_in_digits X : all_in CDigit X -> forallb is_digit X = true.
Proof. induction 1 as [|c X Hc HX IH]; simpl; auto. simpl in Hc. now rewrite Hc. Qed.

Lemma segs_BETWEEN_flat : Forall seg_flat segs_BETWEEN.
Proof. repeat constructor. Qed.

Lemma segs_OR_flat word : Forall seg_flat (segs_OR word).
Proof.
  assert (Hc : forall s, flat (chars s) = true).
  { intros s. unfold chars, flat. now induction (str s). }
  assert (Happ : forall p q, flat p = true -> flat q = true -> flat (p ++ q) = true).
  { intros p q Hp Hq. unfold flat in *. now rewrite forallb_app, Hp, Hq. }
  unfold segs_OR, seg_flat. repeat constructor; simpl seg_inner.
  repeat (apply Happ; auto).
Qed.

(** What a match of the "between" pattern captures. *)
Lemma exec_BETWEEN title m :
  exec RE_BETWEEN title = Some m ->
  exists c X Y d,
    m = [c; X; Y; d]
    /\ all_in CDigit X /\ X <> [] /\ all_in CDigit Y /\ Y <> []
    /\ mentions_highest_temperature title.
Proof.
  rewrite segs_BETWEEN_pattern. intros H.
  apply exec_segs in H as (pre & ws & post & -> & HF & ->); [|apply segs_BETWEEN_flat].
  unfold segs_BETWEEN in *. split_words HF.
  exists w0, w2, w4, w6. simpl groups_of.
  apply lang_plus in L2 as [? ?], L4 as [? ?].
  repeat split; auto.
  apply head_phrase_mentions in L as (h & sp & t & rest & -> & Hh & Hne & Hsp & Ht).
  exists pre, h, sp, t. eexists. repeat split; eauto.
  simpl concat. rewrite <- !app_assoc. reflexivity.
Qed.

(** What a match of the "or below" and "or higher" patterns captures. *)
Lemma exec_OR word title m :
  exec (segs_pattern (segs_OR word)) title = Some m ->
  exists c X d,
    m = [c; X; d]
    /\ all_in CDigit X /\ X <> []
    /\ mentions_highest_temperature title.
Proof.
  intros H.
  apply exec_segs in H as (pre & ws & post & -> & HF & ->); [|apply segs_OR_flat].
  unfold segs_OR in *. split_words HF.
  exists w0, w2, w4. simpl groups_of.
  apply lang_plus in L2 as [? ?].
  repeat split; auto.
  apply head_phrase_mentions in L as (h & sp & t & rest & -> & Hh & Hne & Hsp & Ht).
  exists pre, h, sp, t. eexists. repeat split; eauto.
  simpl concat. rewrite <- !app_assoc. reflexivity.
Qed.

Lemma table_values_nonempty (t : table) key v :
  Forall (fun e => snd e <> []) t -> lookup t key = Some v -> v <> [].
Proof.
  induction 1 as [|[k x] t Hx Ht IH]; simpl; [discriminate|].
  destruct (jsstring_eqb k key); auto. now intros [= <-].
Qed.

Lemma truthy_nonempty x s : x = Some s -> s <> [] -> truthy x = Some s.
Proof. intros -> H. destruct s; [congruence|reflexivity]. Qed.

Lemma truthy_Some x s : truthy x = Some s -> x = Some s.
Proof. destruct x as [[|c r]|]; simpl; congruence. Qed.

Lemma CITY_ALIASES_nonempty : Forall (fun e => snd e <> []) CITY_ALIASES.
Proof. repeat constructor; discriminate. Qed.

(** A resolved city slug is never the empty string. *)
Lemma truthy_matchCity host c : truthy (matchCity host c) = matchCity host c.
Proof.
  unfold matchCity.
  destruct (truthy (lookup CITY_ALIASES _)) as [slug|] eqn:E.
  - apply truthy_Some in E.
    apply truthy_nonempty; auto.
    exact (table_values_nonempty CITY_ALIASES _ _ CITY_ALIASES_nonempty E).
  - destruct (List.find _ CITY_ALIASES) as [[alias slug]|] eqn:F; simpl; auto.
    apply find_some in F as [Hin _].
    pose proof CITY_ALIASES_nonempty as Hall.
    rewrite List.Forall_forall in Hall. apply Hall in Hin. simpl in Hin.
    destruct slug; [congruence|reflexivity].
Qed.

(** A parsed date is never the empty string. *)
Lemma truthy_parseDate host d : truthy (parseDate host d) = parseDate host d.
Proof.
  unfold parseDate.
  destruct (split_spaces _ _ _) as [|p0 [|p1 ps]]; auto.
  destruct (truthy (lookup MONTHS _)) as [mn|]; auto.
  destruct (truthy (Some (digitsOnly p1))) as [day|]; auto.
  destruct (show_N (Date_fullYear host)); reflexivity.
Qed.

Section Parser.

Variables (host : Host) (raw : RawMarket).

Lemma parse_BETWEEN m :
  exec RE_BETWEEN (raw_title raw) = Some m ->
  exists c X Y d,
    m = [c; X; Y; d] /\ all_in CDigit X /\ all_in CDigit Y
    /\ parseMarketTitle host raw
       = parsedAs host raw c d between
           (Num.of_Z (digits_value X))
           (Num.of_Z (digits_value Y) + Num.one)%num.
Proof.
  intros H. destruct (exec_BETWEEN _ _ H) as (c & X & Y & d & -> & HX & _ & HY & _ & _).
  exists c, X, Y, d. repeat split; auto.
  unfold parseMarketTitle. rewrite H. cbn [capture stringArg Nat.sub nth_error mbind result_bind].
  rewrite truthy_matchCity, truthy_parseDate. unfold parsedAs, Number, logUnparsed.
  rewrite (all_in_digits X HX), (all_in_digits Y HY).
  destruct (matchCity host c); auto.
Qed.

Lemma parse_OR_BELOW m :
  exec RE_BETWEEN (raw_title raw) = None ->
  exec RE_OR_BELOW (raw_title raw) = Some m ->
  exists c X d,
    m = [c; X; d] /\ all_in CDigit X
    /\ parseMarketTitle host raw
       = parsedAs host raw c d below NInf (Num.of_Z (digits_value X) + Num.one)%num.
Proof.
  intros H0 H. pose proof H as H'. rewrite segs_OR_BELOW_pattern in H'.
  destruct (exec_OR _ _ _ H') as (c & X & d & -> & HX & _ & _).
  exists c, X, d. repeat split; auto.
  unfold parseMarketTitle. rewrite H0, H.
  cbn [capture stringArg Nat.sub nth_error mbind result_bind].
  rewrite truthy_matchCity, truthy_parseDate. unfold parsedAs, Number, logUnparsed.
  rewrite (all_in_digits X HX).
  destruct (matchCity host c); auto.
Qed.

Lemma parse_OR_HIGHER m :
  exec RE_BETWEEN (raw_title raw) = None ->
  exec RE_OR_BELOW (raw_title raw) = None ->
  exec RE_OR_HIGHER (raw_title raw) = Some m ->
  exists c X d,
    m = [c; X; d] /\ all_in CDigit X
    /\ parseMarketTitle host raw
       = parsedAs host raw c d above (Num.of_Z (digits_value X)) PInf.
Proof.
  intros H0 H1 H. pose proof H as H'. rewrite segs_OR_HIGHER_pattern in H'.
  destruct (exec_OR _ _ _ H') as (c & X & d & -> & HX & _ & _).
  exists c, X, d. repeat split; auto.
  unfold parseMarketTitle. rewrite H0, H1, H.
  cbn [capture stringArg Nat.sub nth_error mbind result_bind].
  rewrite truthy_matchCity, truthy_parseDate. unfold parsedAs, Number, logUnparsed.
  rewrite (all_in_digits X HX).
  destruct (matchCity host c); auto.
Qed.

Lemma parse_no_pattern :
  exec RE_BETWEEN (raw_title raw) = None ->
  exec RE_OR_BELOW (raw_title raw) = None ->
  exec RE_OR_HIGHER (raw_title raw) = None ->
  parseMarketTitle host raw = Returned None.
Proof. intros H0 H1 H2. unfold parseMarketTitle. now rewrite H0, H1, H2. Qed.

End Parser.


Lemma parsedAs_fields host raw c d bt lo hi p :
  parsedAs host raw c d bt lo hi = Returned (Some p) ->
  exists citySlug dateIso,
    matchCity host c = Some citySlug /\ parseDate host d = Some dateIso
    /\ p = buildParsed raw citySlug dateIso high bt lo hi.
Proof.
  unfold parsedAs.
  destruct (matchCity host c) as [citySlug|]; [|discriminate].
  destruct (parseDate host d) as [dateIso|]; [|discriminate].
  intros [= <-]. eauto.
Qed.





(** C10. Every descriptor that [parseMarketTitle] produces has metric
    ["high"], and its title mentions the phrase "highest temperature", which
    all three patterns require. *)
Theorem parseMarketTitle_metric_high (host : Host) (raw : RawMarket) (p : ParsedMarket) :
  parseMarketTitle host raw = Returned (Some p) ->
  metric p = high /\ mentions_highest_temperature (raw_title raw).
Proof.
  intros H.
  destruct (exec RE_BETWEEN (raw_title raw)) as [m|] eqn:E0.
  { destruct (parse_BETWEEN host raw m E0) as (c & X & Y & d & _ & _ & _ & Hp).
    rewrite Hp in H. apply parsedAs_fields in H as (cs & ds & _ & _ & ->).
    split; auto. apply exec_BETWEEN in E0 as (? & ? & ? & ? & ?). tauto. }
  destruct (exec RE_OR_BELOW (raw_title raw)) as [m|] eqn:E1.
  { destruct (parse_OR_BELOW host raw m E0 E1) as (c & X & d & _ & _ & Hp).
    rewrite Hp in H. apply parsedAs_fields in H as (cs & ds & _ & _ & ->).
    split; auto. rewrite segs_OR_BELOW_pattern in E1.
    apply exec_OR in E1 as (? & ? & ? & ?). tauto. }
  destruct (exec RE_OR_HIGHER (raw_title raw)) as [m|] eqn:E2.
  { destruct (parse_OR_HIGHER host raw m E0 E1 E2) as (c & X & d & _ & _ & Hp).
    rewrite Hp in H. apply parsedAs_fields in H as (cs & ds & _ & _ & ->).
    split; auto. rewrite segs_OR_HIGHER_pattern in E2.
    apply exec_OR in E2 as (? & ? & ? & ?). tauto. }
  rewrite (parse_no_pattern host raw E0 E1 E2) in H. discriminate.
Qed.

(** ** The test suites, replayed on the model *)

Module Tests.

(** [tests/probability.test.ts] *)

Example test_bucket_between :
  memberCount (calcBucketProbability FORECAST high (deg 42) (deg 44)) = 20%nat
  /\ probability (calcBucketProbability FORECAST high (deg 42) (deg 44)) = ratio 20 31.
Proof. split; reflexivity. Qed.

Example test_bucket_single_degree :
  memberCount (calcBucketProbability FORECAST high (deg 42) (deg 43)) = 10%nat.
Proof. reflexivity. Qed.

Example test_bucket_empty_bracket :
  memberCount (calcBucketProbability FORECAST high (deg 50) (deg 55)) = 0%nat
  /\ (probability (calcBucketProbability FORECAST high (deg 50) (deg 55)) == Fin 0)%num.
Proof. split; reflexivity. Qed.

Example test_bucket_min_inclusive :
  memberCount (calcBucketProbability FORECAST high (deg 44) (deg 45)) = 1%nat.
Proof. reflexivity. Qed.

Example test_bucket_max_exclusive :
  memberCount (calcBucketProbability FORECAST high (deg 41) (deg 44)) = 30%nat.
Proof. reflexivity. Qed.

Example test_bucket_all_members :
  memberCount (calcBucketProbability FORECAST high (deg 40) (deg 50)) = 31%nat
  /\ (probability (calcBucketProbability FORECAST high (deg 40) (deg 50)) == Fin 1)%num.
Proof. split; reflexivity. Qed.

Example test_bucket_empty_forecast :
  let r := calcBucketProbability (makeForecast [] (str "2026-02-17")) high (deg 40) (deg 50) in
  probability r = Fin 0 /\ memberCount r = 0%nat.
Proof. split; reflexivity. Qed.

Example test_bucket_lows :
  memberCount (calcBucketProbability FORECAST low (deg 26) (deg 28)) = 20%nat.
Proof. reflexivity. Qed.

Example test_above :
  (calcAboveProbability FORECAST high (deg 30) == Fin 1)%num
  /\ (calcAboveProbability FORECAST high (deg 50) == Fin 0)%num
  /\ calcAboveProbability FORECAST high (deg 44) = ratio 1 31
  /\ calcAboveProbability FORECAST high (deg 42) = ratio 21 31
  /\ calcAboveProbability (makeForecast [] (str "2026-02-17")) high (deg 42) = Fin 0.
Proof. repeat split. Qed.

Example test_below :
  (calcBelowProbability FORECAST high (deg 50) == Fin 1)%num
  /\ (calcBelowProbability FORECAST high (deg 30) == Fin 0)%num
  /\ calcBelowProbability FORECAST high (deg 42) = ratio 10 31
  /\ calcBelowProbability FORECAST high (deg 44) = ratio 30 31
  /\ calcBelowProbability (makeForecast [] (str "2026-02-17")) high (deg 42) = Fin 0.
Proof. repeat split. Qed.

Example test_getModelProbability :
  getModelProbability FORECAST_ENSEMBLE (str "2026-02-17") high between (deg 42) (deg 44)
  = Some (ratio 20 31)
  /\ getModelProbability FORECAST_ENSEMBLE (str "2026-02-17") high above (deg 43) PInf
     = Some (ratio 11 31)
  /\ getModelProbability FORECAST_ENSEMBLE (str "2026-02-17") high below NInf (deg 42)
     = Some (ratio 10 31)
  /\ getModelProbability FORECAST_ENSEMBLE (str "2099-01-01") high between (deg 42) (deg 44)
     = None.
Proof. repeat split. Qed.

Example test_adjacent_buckets_sum_to_one :
  (fold_left Num.add
     (List.map (fun lo => probability
                            (calcBucketProbability FORECAST high (deg lo) (deg (lo + 1))))
        [40; 41; 42; 43; 44]%Z)
     Num.zero
   == Fin 1)%num.
Proof. reflexivity. Qed.

(** [tests/edge.test.ts] *)

Example test_edge_yes :
  option_map er_side (calculateEdge (makeMarket (lit 14 100) (lit 86 100)) ENSEMBLE)
  = Some YES.
Proof. reflexivity. Qed.

Example test_edge_no :
  option_map er_side (calculateEdge (makeMarket (lit 90 100) (lit 10 100)) ENSEMBLE)
  = Some NO.
Proof. reflexivity. Qed.

Example test_edge_none_when_priced_at_model :
  calculateEdge (makeMarket (Fin (20 # 31)) (Fin (11 # 31))) ENSEMBLE = None.
Proof. reflexivity. Qed.

(** [tests/sizing.test.ts] *)

Example test_kelly_positive_edge :
  (size (kellySize (lit 6 10) (lit 10 100) (Num.of_Z 100) DEFAULT_CONFIG) == lit 5 1)%num
  /\ (adjustedKelly (kellySize (lit 6 10) (lit 10 100) (Num.of_Z 100) DEFAULT_CONFIG)
      == lit 5 100)%num
  /\ (rawKelly (kellySize (lit 6 10) (lit 10 100) (Num.of_Z 100) DEFAULT_CONFIG)
      == Fin (5 # 9))%num.
Proof. repeat split. Qed.

Example test_kelly_no_edge :
  size (kellySize (lit 5 10) (lit 50 100) (Num.of_Z 100) DEFAULT_CONFIG) = Num.zero
  /\ size (kellySize (lit 1 10) (lit 90 100) (Num.of_Z 100) DEFAULT_CONFIG) = Num.zero.
Proof. split; reflexivity. Qed.

Example test_kelly_zero_bankroll_and_price_one :
  (size (kellySize (lit 6 10) (lit 10 100) (Num.of_Z 0) DEFAULT_CONFIG) == Fin 0)%num
  /\ size (kellySize (lit 6 10) (lit 10 10) (Num.of_Z 100) DEFAULT_CONFIG) = Num.zero.
Proof. split; reflexivity. Qed.

(** [tests/parser.test.ts], on a host in the year 2026 *)

Example test_parse_between_no_degree_symbol :
  parsedFields "Will the highest temperature in Miami be between 78-79 F on February 17?"
  = Some (str "miami", str "2026-02-17", between, Fin 78, Fin 80).
Proof. vm_compute. reflexivity. Qed.

Example test_parse_or_below :
  parsedFields "Will the highest temperature in Seattle be 40 F or below on February 18?"
  = Some (str "seattle", str "2026-02-18", below, NInf, Fin 41).
Proof. vm_compute. reflexivity. Qed.

Example test_parse_or_higher :
  parsedFields "Will the highest temperature in Dallas be 70 F or higher on February 17?"
  = Some (str "dallas", str "2026-02-17", above, Fin 70, PInf).
Proof. vm_compute. reflexivity. Qed.

Example test_parse_zero_padded_day :
  parsedFields "Will the highest temperature in NYC be between 40-41 F on March 5?"
  = Some (str "nyc", str "2026-03-05", between, Fin 40, Fin 42).
Proof. vm_compute. reflexivity. Qed.

Example test_parse_unknown_city :
  parseMarketTitle hostA
    (makeRaw (str "Will the highest temperature in Tokyo be between 40-41 F on February 17?"))
  = Returned None.
Proof. vm_compute. reflexivity. Qed.

Example test_parse_malformed :
  parseMarketTitle hostA (makeRaw (str "Will Bitcoin hit $100K by end of year?"))
  = Returned None
  /\ parseMarketTitle hostA
       (makeRaw (str "Will the highest temperature in NYC be on February 17?"))
     = Returned None.
Proof. split; vm_compute; reflexivity. Qed.

Example test_parse_token_mapping :
  match parseMarketTitle hostA (makeRaw title_between_32_33) with
  | Returned (Some m) =>
      yesTokenId m = str "yes-token" /\ noTokenId m = str "no-token"
      /\ yesPrice m = lit 5 10 /\ noPrice m = lit 5 10
      /\ date m = str "2026-02-16" /\ city m = str "nyc"
  | _ => False
  end.
Proof. vm_compute. repeat split. Qed.

End Tests.

(** ** The theorems at the fixtures of the test suites *)

Lemma calcBucketProbability_counts_witness :
  (deg 42 < deg 44)%num
  /\ Counts (in_bracket (deg 42) (deg 44)) (temps_of FORECAST high)
       (memberCount (calcBucketProbability FORECAST high (deg 42) (deg 44))).
Proof.
  assert (H : (deg 42 < deg 44)%num) by (constructor; reflexivity).
  split; [exact H|].
  exact (proj1 (calcBucketProbability_counts FORECAST high (deg 42) (deg 44) H)).
Defined.

Lemma above_plus_below_is_one_witness :
  temps_of FORECAST high <> []
  /\ deg 42 <> NaN
  /\ Forall (fun v => v <> NaN) (temps_of FORECAST high)
  /\ (calcAboveProbability FORECAST high (deg 42)
      + calcBelowProbability FORECAST high (deg 42) == Fin 1)%num.
Proof.
  assert (H1 : temps_of FORECAST high <> []) by discriminate.
  assert (H2 : deg 42 <> NaN) by discriminate.
  assert (H3 : Forall (fun v => v <> NaN) (temps_of FORECAST high))
    by (repeat constructor; discriminate).
  exact (conj H1 (conj H2 (conj H3
           (above_plus_below_is_one FORECAST high (deg 42) H1 H2 H3)))).
Defined.




Lemma generateSignals_deterministic_up_to_id_witness :
  Date_now hostA = Date_now hostB
  /\ (forall s, Date_getTime hostA s = Date_getTime hostB s)
  /\ List.map (with_id [])
       (generateSignals hostA [marketNo] fixtureEnsembles DEFAULT_CONFIG [] None)
     = List.map (with_id [])
         (generateSignals hostB [marketNo] fixtureEnsembles DEFAULT_CONFIG [] None).
Proof.
  assert (H1 : Date_now hostA = Date_now hostB) by reflexivity.
  assert (H2 : forall s, Date_getTime hostA s = Date_getTime hostB s)
    by (intros s; reflexivity).
  exact (conj H1 (conj H2
           (proj1 (generateSignals_deterministic_up_to_id hostA hostB [marketNo]
                     fixtureEnsembles DEFAULT_CONFIG [] None H1 H2)))).
Defined.

Lemma parseMarketTitle_metric_high_witness :
  exists p,
    parseMarketTitle hostA (makeRaw title_between_32_33) = Returned (Some p)
    /\ metric p = high
    /\ mentions_highest_temperature title_between_32_33.
Proof.
  destruct (parseMarketTitle hostA (makeRaw title_between_32_33)) as [[p|]|] eqn:E;
    try (vm_compute in E; discriminate).
  exists p. split; [reflexivity|].
  exact (parseMarketTitle_metric_high hostA (makeRaw title_between_32_33) p E).
Defined.

Lemma calculateConsensus_tier_witness :
  getModelProbability ENSEMBLE (str "2026-02-17") high between (deg 42) (deg 44)
  = Some (Fin (20 # 31))
  /\ exists r,
       calculateConsensus ENSEMBLE (Some ENSEMBLE) (Some (deg 50)) (str "2026-02-17")
         high between (deg 42) (deg 44) = Some r
       /\ TierRule
            (modelsConsulted (ecmwfProbability r)
               (nwsInBracket (Some (deg 50)) high between (deg 42) (deg 44)))
            (inject_Z (Z.of_nat (modelsAgreeing r))
             / inject_Z (Z.of_nat
                           (modelsConsulted (ecmwfProbability r)
                              (nwsInBracket (Some (deg 50)) high between
                                 (deg 42) (deg 44)))))
            (confidence r) (kellyMultiplier r).
Proof.
  assert (H : getModelProbability ENSEMBLE (str "2026-02-17") high between
                (deg 42) (deg 44) = Some (Fin (20 # 31))) by reflexivity.
  split; [exact H|].
  exact (proj2 (calculateConsensus_tier ENSEMBLE (Some ENSEMBLE) (Some (deg 50))
                  (str "2026-02-17") high between (deg 42) (deg 44))
           (Fin (20 # 31)) H).
Defined.


(* ===================================================================== *)
(** * Further properties of the code *)
(* ===================================================================== *)

(** ** Order of numbers *)

Lemma Qle_bool_reflect x y : reflect (x <= y) (Qle_bool x y).
Proof. apply iff_reflect. symmetry. apply Qle_bool_iff. Qed.

Lemma leb_trans a b c : (a <=? b)%num = true -> (b <=? c)%num = true -> (a <=? c)%num = true.
Proof. intros. num_cases. Qed.

Lemma le_trans a b c : (a <= b)%num -> (b <= c)%num -> (a <= c)%num.
Proof. rewrite <- !leb_le. apply leb_trans. Qed.

Lemma lt_le a b : (a < b)%num -> (a <= b)%num.
Proof. rewrite <- leb_le, <- ltb_lt. intros. num_cases. Qed.

Lemma not_le_lt a b : a <> NaN -> b <> NaN -> ~ (a <= b)%num -> (b < a)%num.
Proof.
  rewrite <- leb_le, <- ltb_lt. intros Ha Hb H.
  apply not_true_is_false in H. num_cases.
Qed.

Lemma le_fin_iff p q : (Fin p <= Fin q)%num <-> p <= q.
Proof. split; [now inversion 1 | now constructor]. Qed.

Lemma lt_fin_iff p q : (Fin p < Fin q)%num <-> p < q.
Proof. split; [now inversion 1 | now constructor]. Qed.

(** ** Ensemble probabilities, continued *)


Lemma filter_length_partition {A} (P : A -> Prop) (f g h : A -> bool) (l : list A) :
  (forall v, P v ->
     (f v || g v) || h v = true /\ f v && g v = false /\ (f v || g v) && h v = false) ->
  Forall P l ->
  (length (List.filter f l) + length (List.filter g l) + length (List.filter h l))%nat
  = length l.
Proof.
  intros H. induction 1 as [|v vs Hv Hvs IH]; simpl; auto.
  destruct (H v Hv) as (H1 & H2 & H3).
  destruct (f v), (g v), (h v); simpl in *; try discriminate; lia.
Qed.

Lemma filter_length_le {A} (f : A -> bool) (l : list A) :
  (length (List.filter f l) <= length l)%nat.
Proof. induction l as [|a l IH]; simpl; auto. destruct (f a); simpl; lia. Qed.



Section MoreProbability.

Variables (forecast : DailyForecast) (metric : Metric).


Lemma three_way_test a b v :
  v <> NaN -> (a <= b)%num ->
  ((v <? a)%num || ((v >=? a)%num && (v <? b)%num)) || (v >=? b)%num = true
  /\ (v <? a)%num && ((v >=? a)%num && (v <? b)%num) = false
  /\ ((v <? a)%num || ((v >=? a)%num && (v <? b)%num)) && (v >=? b)%num = false.
Proof.
  rewrite <- leb_le. unfold Num.geb. intros Hv Hab. repeat split; num_cases.
Qed.

(** X2.  A bracket and its two tails partition a non-empty ensemble: for
    [a <= b], [below(a) + bucket(a, b) + above(b)] is exactly 1 (in exact
    arithmetic, no member being [NaN]). *)
Theorem below_bucket_above_is_one (a b : num) :
  temps_of forecast metric <> [] ->
  Forall is_number (temps_of forecast metric) ->
  (a <= b)%num ->
  (calcBelowProbability forecast metric a
   + probability (calcBucketProbability forecast metric a b)
   + calcAboveProbability forecast metric b == Fin 1)%num.
Proof.
  intros Hne Hall Hab.
  unfold calcBelowProbability, calcAboveProbability, calcBucketProbability.
  destruct (temps_of forecast metric) as [|t l] eqn:E; [congruence|].
  set (temps := t :: l) in *.
  assert (Hn : length temps <> 0%nat) by (subst temps; simpl; lia).
  replace (Nat.eqb (length temps) 0) with false by (symmetry; now apply Nat.eqb_neq).
  cbn [probability].
  set (x := length (List.filter (fun v => (v <? a)%num) temps)).
  set (y := length (List.filter (fun v => (v >=? a)%num && (v <? b)%num) temps)).
  set (z := length (List.filter (fun v => (v >=? b)%num) temps)).
  assert (Hsum : (x + y + z)%nat = length temps).
  { subst x y z. apply (filter_length_partition is_number); auto.
    intros v Hv. now apply three_way_test. }
  rewrite !of_nat_div_fin by assumption. cbn [Num.add Num.eq].
  assert (Hq : inject_Z (Z.of_nat x) + inject_Z (Z.of_nat y) + inject_Z (Z.of_nat z)
               == inject_Z (Z.of_nat (length temps))).
  { rewrite <- !inject_Z_plus, <- !Nat2Z.inj_add, Hsum. reflexivity. }
  assert (Hpos : ~ inject_Z (Z.of_nat (length temps)) == 0).
  { change 0 with (inject_Z 0). rewrite inject_Z_injective. lia. }
  rewrite <- Hq in Hpos |- *. field. exact Hpos.
Qed.

End MoreProbability.

Lemma filter_length_mono {A} (f g : A -> bool) (l : list A) :
  (forall v, f v = true -> g v = true) ->
  (length (List.filter f l) <= length (List.filter g l))%nat.
Proof.
  intros H. induction l as [|a l IH]; simpl; auto.
  specialize (H a). destruct (f a), (g a); simpl; try lia.
Qed.

Lemma count_ratio_le (x y n : nat) :
  (x <= y)%nat -> n <> 0%nat ->
  (Num.of_nat x / Num.of_nat n <= Num.of_nat y / Num.of_nat n)%num.
Proof.
  intros Hxy Hn. rewrite !of_nat_div_fin by assumption. constructor.
  apply Qmult_le_compat_r.
  - rewrite <- Zle_Qle. lia.
  - apply Qinv_le_0_compat. change 0 with (inject_Z 0). rewrite <- Zle_Qle. lia.
Qed.

Lemma count_ratio_range (x n : nat) :
  (x <= n)%nat -> n <> 0%nat ->
  exists q, (Num.of_nat x / Num.of_nat n)%num = Fin q /\ 0 <= q <= 1.
Proof.
  intros Hx Hn. rewrite of_nat_div_fin by assumption. eexists; split; eauto.
  assert (Hpos : 0 < inject_Z (Z.of_nat n)).
  { change 0 with (inject_Z 0). rewrite <- Zlt_Qlt. lia. }
  split.
  - apply Qle_shift_div_l; auto. rewrite Qmult_0_l.
    change 0 with (inject_Z 0). rewrite <- Zle_Qle. lia.
  - apply Qle_shift_div_r; auto. rewrite Qmult_1_l. rewrite <- Zle_Qle. lia.
Qed.

Section Thresholds.

Variables (forecast : DailyForecast) (metric : Metric).

(** X3.  Raising the threshold never raises the probability of "at or above"
    and never lowers the probability of "below". *)
Theorem threshold_monotone (t1 t2 : num) :
  (t1 <= t2)%num ->
  (calcAboveProbability forecast metric t2 <= calcAboveProbability forecast metric t1)%num
  /\ (calcBelowProbability forecast metric t1 <= calcBelowProbability forecast metric t2)%num.
Proof.
  intros H. unfold calcAboveProbability, calcBelowProbability.
  destruct (Nat.eqb (length (temps_of forecast metric)) 0) eqn:E.
  - split; constructor; apply Qle_refl.
  - apply Nat.eqb_neq in E. apply leb_le in H.
    split; apply count_ratio_le; auto; apply filter_length_mono;
      intros v Hv; unfold Num.geb in *; num_cases.
Qed.

End Thresholds.

Lemma find_none_iff {A} (f : A -> bool) (l : list A) :
  List.find f l = None <-> Forall (fun x => f x = false) l.
Proof.
  induction l as [|a l IH]; simpl.
  - split; auto.
  - destruct (f a) eqn:E.
    + split; [discriminate|]. intros H. inversion H; congruence.
    + rewrite IH. split; [now constructor | now inversion 1].
Qed.

Lemma getModelProbability_unit ensemble date metric bracketType bracketMin bracketMax v :
  getModelProbability ensemble date metric bracketType bracketMin bracketMax = Some v ->
  exists q, v = Fin q /\ 0 <= q <= 1.
Proof.
  unfold getModelProbability.
  destruct (List.find _ _) as [day|]; [|discriminate].
  assert (Hz : exists q, Fin 0 = Fin q /\ 0 <= q <= 1) by (exists 0; split; [auto|lra]).
  destruct bracketType; intros [= <-];
    unfold calcAboveProbability, calcBelowProbability, calcBucketProbability;
    destruct (Nat.eqb (length (temps_of day metric)) 0) eqn:E; cbn [probability];
    auto; apply count_ratio_range;
    try apply filter_length_le; now apply Nat.eqb_neq.
Qed.

(** X4.  [getModelProbability] is [null] exactly when no daily entry carries the
    requested date, and otherwise a probability between 0 and 1, for every
    bracket type and all bounds. *)
Theorem getModelProbability_range (ensemble : EnsembleForecast) (date : jsstring)
    (metric : Metric) (bracketType : BracketType) (bracketMin bracketMax : num) :
  (getModelProbability ensemble date metric bracketType bracketMin bracketMax = None
   <-> Forall (fun day => df_date day <> date) (daily ensemble))
  /\ (forall v,
      getModelProbability ensemble date metric bracketType bracketMin bracketMax = Some v ->
      exists q, v = Fin q /\ 0 <= q <= 1).
Proof.
  split; [|apply getModelProbability_unit].
  unfold getModelProbability.
  destruct (List.find _ _) as [day|] eqn:E.
  - split; [destruct bracketType; discriminate|].
    intros H. apply find_some in E as [Hin Hd].
    rewrite List.Forall_forall in H. apply H in Hin.
    unfold jsstring_eqb in Hd. apply bool_decide_eq_true in Hd. contradiction.
  - split; auto. intros _. apply find_none_iff in E.
    eapply List.Forall_impl; [|exact E]. intros day Hd.
    unfold jsstring_eqb in Hd. now apply bool_decide_eq_false in Hd.
Qed.

(** X5.  Whole degrees: when the members and the two bounds [X <= Y] are
    integers, the bracket [[X, Y + 1)] that the parser builds for
    "between X-Y" holds exactly the members [v] with [X <= v <= Y]. *)
Theorem calcBucketProbability_whole_degrees (forecast : DailyForecast)
    (metric : Metric) (X Y : Z) :
  Forall is_integer (temps_of forecast metric) ->
  Counts (fun v => (Num.of_Z X <= v)%num /\ (v <= Num.of_Z Y)%num)
    (temps_of forecast metric)
    (memberCount (calcBucketProbability forecast metric (Num.of_Z X)
                    (Num.of_Z Y + Num.one)%num)).
Proof.
  intros Hall. unfold calcBucketProbability.
  destruct (temps_of forecast metric) as [|t l] eqn:E; [constructor|].
  replace (Nat.eqb (length (t :: l)) 0) with false by reflexivity.
  cbn [memberCount]. clear E. revert Hall. generalize (t :: l). clear t l.
  intros l Hall. induction Hall as [|v vs [z ->] Hvs IH]; simpl; [constructor|].
  assert (Hiff : (Num.of_Z z >=? Num.of_Z X)%num
                 && (Num.of_Z z <? Num.of_Z Y + Num.one)%num = true
                 <-> (Num.of_Z X <= Num.of_Z z)%num /\ (Num.of_Z z <= Num.of_Z Y)%num).
  { rewrite andb_true_iff, geb_le, ltb_lt. unfold Num.of_Z, Num.one. cbn [Num.add].
    rewrite !le_fin_iff, lt_fin_iff.
    change 1 with (inject_Z 1). rewrite <- inject_Z_plus, <- !Zle_Qle, <- Zlt_Qlt. lia. }
  destruct (_ && _) eqn:Ev.
  - simpl. apply Counts_in; auto. now apply Hiff.
  - apply Counts_out; auto. intros H. apply Hiff in H. congruence.
Qed.

(** ** Edge selection, continued *)

(** X6.  An edge result always carries a strictly positive edge, which is the
    chosen side's probability minus the chosen side's price, and the price
    it reports twice is the same; the signals of [generateSignals] carry a
    strictly positive edge computed the same way. *)
Theorem calculateEdge_positive (market : ParsedMarket) (ensemble : EnsembleForecast) :
  (forall e, calculateEdge market ensemble = Some e ->
     (Num.zero < er_edge e)%num
     /\ er_edge e = (er_modelProbability e - er_marketPrice e)%num
     /\ er_effectivePrice e = er_marketPrice e
     /\ er_market e = market)
  /\ (forall host config openIds gfsEnsembles ecmwfEnsembles uuid s,
      signalFor host config openIds gfsEnsembles ecmwfEnsembles market uuid = Some s ->
      (Num.zero < sig_edge s)%num
      /\ sig_edge s = (sig_modelProbability s - sig_marketPrice s)%num).
Proof.
  split.
  - intros e. unfold calculateEdge.
    destruct (getModelProbability _ _ _ _ _ _) as [p|]; [|discriminate]. cbv zeta.
    destruct (_ && _) eqn:Ey.
    + intros [= <-]. cbn. apply pick_yes_test in Ey. tauto.
    + match goal with
      | |- context [if ?t then Some _ else None] => destruct t eqn:En; [|discriminate]
      end.
      intros [= <-]. cbn. apply gtb_lt in En. tauto.
  - intros host config openIds gfsEnsembles ecmwfEnsembles uuid s H.
    apply signalFor_inv in H as (g & c & _ & _ & _ & H). cbv zeta in H.
    destruct H as (H & _).
    destruct (_ && _) eqn:Ey.
    + apply pick_yes_test in Ey. destruct H as (_ & -> & -> & ->). tauto.
    + destruct H as (En & _ & -> & -> & ->). apply gtb_lt in En. tauto.
Qed.


(** ** Kelly sizing, continued *)



Section MoreSizing.

Variables (p price : Q) (bankroll : num) (config : AppConfig).


End MoreSizing.







(** ** Consensus, continued *)

Section MoreConsensus.

Variables (gfsEnsemble : EnsembleForecast) (ecmwfEnsemble : option EnsembleForecast).
Variables (date : jsstring) (metric : Metric).
Variables (bracketType : BracketType) (bracketMin bracketMax : num).

(** X10.  The tier as a function of the two counts.  Between one and three
    sources are consulted and at least the primary agrees with itself; the
    tier is SAFE with one source, LOCK when two or three sources all agree,
    STRONG when two of three agree, NEAR-SAFE when the two models disagree
    and SKIP when the primary stands alone against the two others. *)
Theorem calculateConsensus_tier_by_counts (nwsHigh : option num) (r : ConsensusResult) :
  calculateConsensus gfsEnsemble ecmwfEnsemble nwsHigh date metric bracketType
    bracketMin bracketMax = Some r ->
  let models :=
    modelsConsulted (ecmwfProbability r)
      (nwsInBracket nwsHigh metric bracketType bracketMin bracketMax) in
  (1 <= modelsAgreeing r <= models)%nat /\ (models <= 3)%nat
  /\ (confidence r, kellyMultiplier r)
     = match models, modelsAgreeing r with
       | 1, _ => (SAFE, lit 10 10)
       | 2, 2 | 3, 3 => (LOCK, lit 15 10)
       | 3, 2 => (STRONG, lit 12 10)
       | 2, 1 => (NEAR_SAFE, lit 7 10)
       | _, _ => (SKIP, Num.zero)
       end%nat.
Proof.
  intros Hr.
  destruct (getModelProbability gfsEnsemble date metric bracketType bracketMin bracketMax)
    as [p|] eqn:Hp.
  2:{ unfold calculateConsensus in Hr. rewrite Hp in Hr. discriminate. }
  destruct (calculateConsensus_fields_gen gfsEnsemble ecmwfEnsemble date metric
              bracketType bracketMin bracketMax nwsHigh p Hp)
    as (r0 & Hr0 & _ & He & _ & Ha & _ & Ht).
  assert (r0 = r) by congruence. subst r0.
  cbv zeta. rewrite Ht, Ha, He. clear.
  unfold modelsConsulted, agrees.
  destruct (match ecmwfEnsemble with Some _ => _ | None => _ end) as [e|];
    destruct (nwsInBracket _ _ _ _ _) as [t|]; cbn [option_map];
    repeat match goal with
           | |- context [Bool.eqb ?a ?b] => destruct (Bool.eqb a b)
           end;
    (split; [simpl; lia|]); (split; [simpl; lia|]); reflexivity.
Qed.

(** X11.  Without a point forecast -- the only way [generateSignals] calls the
    consensus -- the tier is never SKIP and never STRONG: it is SAFE
    (multiplier 1.0) when the secondary model has no probability for the
    date, LOCK (1.5) when the two models vote alike and NEAR-SAFE (0.7)
    when they do not. *)
Theorem calculateConsensus_without_tiebreaker (r : ConsensusResult) :
  calculateConsensus gfsEnsemble ecmwfEnsemble None date metric bracketType
    bracketMin bracketMax = Some r ->
  confidence r <> SKIP /\ confidence r <> STRONG
  /\ match ecmwfProbability r with
     | None =>
         confidence r = SAFE /\ kellyMultiplier r = lit 10 10
         /\ modelsAgreeing r = 1%nat
     | Some e =>
         if Bool.eqb (vote e) (vote (gfsProbability r)) then
           confidence r = LOCK /\ kellyMultiplier r = lit 15 10
           /\ modelsAgreeing r = 2%nat
         else
           confidence r = NEAR_SAFE /\ kellyMultiplier r = lit 7 10
           /\ modelsAgreeing r = 1%nat
     end.
Proof.
  intros Hr.
  destruct (getModelProbability gfsEnsemble date metric bracketType bracketMin bracketMax)
    as [p|] eqn:Hp.
  2:{ unfold calculateConsensus in Hr. rewrite Hp in Hr. discriminate. }
  destruct (calculateConsensus_fields_gen gfsEnsemble ecmwfEnsemble date metric
              bracketType bracketMin bracketMax None p Hp)
    as (r0 & Hr0 & Hg & He & _ & Ha & _ & Ht).
  assert (r0 = r) by congruence. subst r0.
  rewrite Hg, He, Ha in *. clear Hr Hr0 Hp Hg He Ha.
  unfold modelsConsulted, agrees in *. cbn [nwsInBracket] in Ht.
  set (tier := confidence r) in *. set (k := kellyMultiplier r) in *.
  clearbody tier k.
  destruct (match ecmwfEnsemble with Some _ => _ | None => _ end) as [e|];
    cbn [option_map] in *.
  - destruct (Bool.eqb (vote e) (vote p));
      vm_compute in Ht; injection Ht as -> ->; repeat split; discriminate.
  - vm_compute in Ht; injection Ht as -> ->; repeat split; discriminate.
Qed.


End MoreConsensus.

(** ** Signal generation, continued *)

Lemma signalFor_filters host config openIds gfsEnsembles ecmwfEnsembles market uuid s :
  signalFor host config openIds gfsEnsembles ecmwfEnsembles market uuid = Some s ->
  (conditionId market ∉ openIds)
  /\ (volume market <? MIN_VOLUME)%num = false
  /\ (Date_getTime host (endDateIso market) - Date_now host
      <? MIN_HOURS_TO_SETTLE * int 60 * int 60 * int 1000)%num = false
  /\ (Date_getTime host (date market) - Date_now host
      >? int 7 * int 24 * int 60 * int 60 * int 1000)%num = false.
Proof.
  unfold signalFor.
  destruct (bool_decide _) eqn:Eo; [discriminate|].
  destruct (volume market <? MIN_VOLUME)%num eqn:Ev; [discriminate|].
  match goal with
  | |- (if ?b then None else _) = Some _ -> _ => destruct b eqn:Et; [discriminate|]
  end.
  match goal with
  | |- (if ?b then None else _) = Some _ -> _ => destruct b eqn:Eh; [discriminate|]
  end.
  intros _. apply bool_decide_eq_false in Eo. auto.
Qed.

Lemma elem_of_openConditionIds (openPositions : list Position) (id : jsstring) :
  id ∈ openConditionIds openPositions
  <-> exists p, In p openPositions /\ status p = st_open /\ pos_conditionId p = id.
Proof.
  unfold openConditionIds. rewrite elem_of_list_to_set, list_elem_of_In, in_map_iff.
  split.
  - intros (p & <- & Hp). apply filter_In in Hp as [Hin Hs].
    exists p. repeat split; auto. destruct (status p); congruence.
  - intros (p & Hin & Hs & <-). exists p. split; auto.
    apply filter_In. split; auto. now rewrite Hs.
Qed.

Lemma signalsFrom_sublist host config openIds gfsEnsembles ecmwfEnsembles markets k :
  sublist
    (List.map sig_market
       (signalsFrom host config openIds gfsEnsembles ecmwfEnsembles markets k))
    markets.
Proof.
  revert k. induction markets as [|m ms IH]; intros k; simpl; [constructor|].
  destruct (signalFor _ _ _ _ _ m _) as [s|] eqn:E.
  - apply signalFor_inv in E as (g & c & _ & _ & _ & H). cbv zeta in H.
    destruct H as (_ & _ & _ & _ & _ & _ & _ & Hmk & _).
    simpl. rewrite Hmk. apply sublist_skip, IH.
  - apply sublist_cons, IH.
Qed.

(** X13.  The markets of the emitted signals are the input markets that passed
    every filter, in input order and each at most once per occurrence; a
    market passes only if no open position holds its condition id, its
    volume is not below 1000, it settles no sooner than two hours from now,
    its date is no more than seven days away and the chosen edge is not
    below [minEdgePct / 100].  (A comparison with [NaN] counts as passed.) *)
Theorem generateSignals_filters host markets gfsEnsembles config openPositions
    ecmwfEnsembles :
  let signals :=
    generateSignals host markets gfsEnsembles config openPositions ecmwfEnsembles in
  sublist (List.map sig_market signals) markets
  /\ forall s, In s signals ->
       let market := sig_market s in
       (forall p, In p openPositions -> status p = st_open ->
          pos_conditionId p <> conditionId market)
       /\ ~ (volume market < Num.of_Z 1000)%num
       /\ ~ (Date_getTime host (endDateIso market) - Date_now host
             < Num.of_Z 7200000)%num
       /\ ~ (Num.of_Z 604800000
             < Date_getTime host (date market) - Date_now host)%num
       /\ ~ (sig_edge s < minEdgePct config / Num.of_Z 100)%num
       /\ createdAt s = Date_now host.
Proof.
  cbv zeta. unfold generateSignals. split; [apply signalsFrom_sublist|].
  intros s Hin. apply signalsFrom_In in Hin as (m & u & Hm & Hs).
  pose proof (signalFor_filters _ _ _ _ _ _ _ _ Hs) as (Ho & Hv & Ht & Hh).
  apply signalFor_inv in Hs as (g & c & _ & _ & _ & H). cbv zeta in H.
  destruct H as (_ & He & _ & _ & _ & _ & _ & Hmk & Hc). rewrite Hmk.
  split; [|split; [|split; [|split; [|split]]]].
  - intros p Hp Hst Heq. apply Ho. apply elem_of_openConditionIds. eauto.
  - rewrite <- ltb_lt. unfold MIN_VOLUME in Hv. congruence.
  - rewrite <- ltb_lt.
    change (Num.of_Z 7200000)
      with (MIN_HOURS_TO_SETTLE * int 60 * int 60 * int 1000)%num.
    congruence.
  - rewrite <- ltb_lt.
    change (Num.of_Z 604800000)
      with (int 7 * int 24 * int 60 * int 60 * int 1000)%num.
    unfold Num.gtb in Hh. congruence.
  - rewrite <- ltb_lt. congruence.
  - exact Hc.
Qed.




(** ** Title parsing, continued *)

Lemma lookup_In (t : table) key v : lookup t key = Some v -> In (key, v) t.
Proof.
  induction t as [|[k x] t IH]; simpl; [discriminate|].
  unfold jsstring_eqb. destruct (bool_decide (k = key)) eqn:E.
  - apply bool_decide_eq_true in E. intros [= <-]. left. now subst.
  - auto.
Qed.


Lemma parseMarketTitle_returns host raw :
  exists r, parseMarketTitle host raw = Returned r.
Proof.
  assert (Hp : forall c d bt lo hi, exists r, parsedAs host raw c d bt lo hi = Returned r).
  { intros. unfold parsedAs. destruct (matchCity host c), (parseDate host d); eauto. }
  destruct (exec RE_BETWEEN (raw_title raw)) as [m|] eqn:E0.
  { destruct (parse_BETWEEN host raw m E0) as (c & X & Y & d & _ & _ & _ & ->). apply Hp. }
  destruct (exec RE_OR_BELOW (raw_title raw)) as [m|] eqn:E1.
  { destruct (parse_OR_BELOW host raw m E0 E1) as (c & X & d & _ & _ & ->). apply Hp. }
  destruct (exec RE_OR_HIGHER (raw_title raw)) as [m|] eqn:E2.
  { destruct (parse_OR_HIGHER host raw m E0 E1 E2) as (c & X & d & _ & _ & ->). apply Hp. }
  rewrite (parse_no_pattern host raw E0 E1 E2). eauto.
Qed.

Lemma parseMarketTitle_inv host raw p :
  parseMarketTitle host raw = Returned (Some p) ->
  exists c d citySlug dateIso bt lo hi,
    matchCity host c = Some citySlug /\ parseDate host d = Some dateIso
    /\ p = buildParsed raw citySlug dateIso high bt lo hi
    /\ ((bt = between
         /\ exists X Y, forallb is_digit X = true /\ forallb is_digit Y = true
              /\ lo = Num.of_Z (digits_value X)
              /\ hi = (Num.of_Z (digits_value Y) + Num.one)%num)
        \/ (bt = below /\ lo = NInf
            /\ exists X, forallb is_digit X = true
                 /\ hi = (Num.of_Z (digits_value X) + Num.one)%num)
        \/ (bt = above /\ hi = PInf
            /\ exists X, forallb is_digit X = true
                 /\ lo = Num.of_Z (digits_value X))).
Proof.
  intros E.
  destruct (exec RE_BETWEEN (raw_title raw)) as [m|] eqn:E0.
  { destruct (parse_BETWEEN host raw m E0) as (c & X & Y & d & _ & HX & HY & Hp).
    rewrite Hp in E. apply parsedAs_fields in E as (cs & ds & Hc & Hd & ->).
    exists c, d, cs, ds. do 3 eexists. repeat (split; [eassumption || reflexivity|]).
    left. split; auto. exists X, Y. auto using all_in_digits. }
  destruct (exec RE_OR_BELOW (raw_title raw)) as [m|] eqn:E1.
  { destruct (parse_OR_BELOW host raw m E0 E1) as (c & X & d & _ & HX & Hp).
    rewrite Hp in E. apply parsedAs_fields in E as (cs & ds & Hc & Hd & ->).
    exists c, d, cs, ds. do 3 eexists. repeat (split; [eassumption || reflexivity|]).
    right. left. repeat split; auto. exists X. auto using all_in_digits. }
  destruct (exec RE_OR_HIGHER (raw_title raw)) as [m|] eqn:E2.
  { destruct (parse_OR_HIGHER host raw m E0 E1 E2) as (c & X & d & _ & HX & Hp).
    rewrite Hp in E. apply parsedAs_fields in E as (cs & ds & Hc & Hd & ->).
    exists c, d, cs, ds. do 3 eexists. repeat (split; [eassumption || reflexivity|]).
    right. right. repeat split; auto. exists X. auto using all_in_digits. }
  rewrite (parse_no_pattern host raw E0 E1 E2) in E. discriminate.
Qed.

(** X15.  [parseAllMarkets] never throws: it returns the descriptors of the
    titles that parse, in input order, and drops the others. *)
Theorem parseAllMarkets_keeps_parsed (host : Host) (raws : list RawMarket) :
  parseAllMarkets host raws
  = Returned
      (omap (fun raw =>
               match parseMarketTitle host raw with
               | Returned p => p
               | Thrown => None
               end) raws)
  /\ forall parsed, parseAllMarkets host raws = Returned parsed ->
       sublist (List.map title parsed) (List.map raw_title raws).
Proof.
  assert (Heq : parseAllMarkets host raws
                = Returned
                    (omap (fun raw =>
                             match parseMarketTitle host raw with
                             | Returned p => p
                             | Thrown => None
                             end) raws)).
  { induction raws as [|raw rest IH]; [reflexivity|].
    cbn [parseAllMarkets omap list_omap].
    destruct (parseMarketTitle_returns host raw) as [r ->].
    rewrite IH. cbn [mbind result_bind]. destruct r; reflexivity. }
  split; [exact Heq|].
  intros parsed H. rewrite Heq in H. injection H as <-.
  clear Heq. induction raws as [|raw rest IH]; [constructor|].
  cbn [omap list_omap List.map].
  destruct (parseMarketTitle host raw) as [[p|]|] eqn:E.
  - cbn [List.map].
    assert (Ht : title p = raw_title raw).
    { apply parseMarketTitle_inv in E
        as (c & d & cs & ds & bt & lo & hi & _ & _ & -> & _).
      reflexivity. }
    rewrite Ht. apply sublist_skip, IH.
  - apply sublist_cons, IH.
  - apply sublist_cons, IH.
Qed.

Lemma lookup_values (t : table) key v : lookup t key = Some v -> In v (List.map snd t).
Proof. intros H. apply lookup_In in H. apply (in_map snd) in H. exact H. Qed.

(** The slug of a resolved city, with the normalized text [n]. *)
Lemma matchCity_normalized host raw :
  matchCity host raw
  = let n := toLowerCase host (trim raw) in
    option_map snd
      (List.find (fun '(alias, _) => includes n alias || includes alias n) CITY_ALIASES).
Proof.
  unfold matchCity. cbv zeta. generalize (toLowerCase host (trim raw)) as n. intros n.
  destruct (truthy (lookup CITY_ALIASES n)) as [slug|] eqn:E; [|reflexivity].
  apply truthy_Some in E. pose proof (lookup_In _ _ _ E) as Hin.
  unfold CITY_ALIASES, entry in Hin. simpl In in Hin.
  repeat (destruct Hin as [Hin|Hin];
          [injection Hin as <- <-; reflexivity|]).
  contradiction.
Qed.

(** X16.  The partial match subsumes the direct one: [matchCity] returns the slug
    of the first alias, in table order, that contains the normalized text
    or is contained in it, and [null] when there is none (for a normalized
    text that names no inherited property of the table).  The slug is one
    of the six city slugs, and a text that is empty once trimmed resolves to
    the first entry of the table, ["nyc"]. *)
Theorem matchCity_first_alias (host : Host) (raw : jsstring) :
  let n := toLowerCase host (trim raw) in
  ~ In n Object_prototype_keys ->
  matchCity host raw
  = option_map snd
      (List.find (fun '(alias, _) => includes n alias || includes alias n) CITY_ALIASES)
  /\ (matchCity host raw = None
      <-> forall alias slug, In (alias, slug) CITY_ALIASES ->
            includes n alias = false /\ includes alias n = false)
  /\ (forall slug, matchCity host raw = Some slug ->
      In slug [str "nyc"; str "chicago"; str "miami"; str "atlanta";
               str "seattle"; str "dallas"])
  /\ (n = [] -> matchCity host raw = Some (str "nyc")).
Proof.
  cbv zeta. rewrite matchCity_normalized. cbv zeta.
  generalize (toLowerCase host (trim raw)) as n. intros n _.
  split; [reflexivity|]. split; [|split].
  - destruct (List.find _ _) as [[a s]|] eqn:F; cbn [option_map].
    + split; [discriminate|]. intros H. apply find_some in F as [Hin Hf].
      destruct (H a s Hin) as [H1 H2]. rewrite H1, H2 in Hf. discriminate.
    + split; auto. intros _ alias slug Hin.
      pose proof (find_none _ _ F _ Hin) as Hf. cbn beta iota in Hf.
      now apply orb_false_iff in Hf.
  - intros slug H.
    destruct (List.find _ _) as [[a s]|] eqn:F; [|discriminate].
    injection H as <-. apply find_some in F as [Hin _].
    unfold CITY_ALIASES, entry in Hin. simpl In in Hin.
    repeat (destruct Hin as [Hin|Hin];
            [injection Hin as <- <-; simpl; tauto|]).
    contradiction.
  - intros ->. reflexivity.
Qed.

Lemma padStart2_digits (day : jsstring) :
  forallb is_digit day = true ->
  forallb is_digit (padStart2 day) = true /\ (2 <= length (padStart2 day))%nat.
Proof.
  intros H. unfold padStart2. split.
  - rewrite forallb_app, H, andb_true_r.
    destruct (2 - length day)%nat as [|[|[|k]]] eqn:E; try reflexivity. lia.
  - rewrite length_app, repeat_length. lia.
Qed.

(** X17.  A parsed date is the host's current year, a month number of the table
    and the digits of the day word padded to two places, joined by
    hyphens; [null] results when the text has fewer than two words, the
    first is no month name or the second holds no digit.  (For a first word
    that names no inherited property of the month table.) *)
Theorem parseDate_format (host : Host) (raw : jsstring) :
  let parts := split_spaces (trim raw) [] false in
  ~ In (toLowerCase host (nth 0 parts [])) Object_prototype_keys ->
  match parseDate host raw with
  | Some iso =>
      exists monthNum,
        lookup MONTHS (toLowerCase host (nth 0 parts [])) = Some monthNum
        /\ In monthNum (List.map snd MONTHS)
        /\ digitsOnly (nth 1 parts []) <> []
        /\ iso = show_N (Date_fullYear host) ++ str "-" ++ monthNum ++ str "-"
                 ++ padStart2 (digitsOnly (nth 1 parts []))
        /\ forallb is_digit (padStart2 (digitsOnly (nth 1 parts []))) = true
        /\ (2 <= length (padStart2 (digitsOnly (nth 1 parts []))))%nat
  | None =>
      (length parts < 2)%nat
      \/ lookup MONTHS (toLowerCase host (nth 0 parts [])) = None
      \/ digitsOnly (nth 1 parts []) = []
  end.
Proof.
  cbv zeta. intros _. unfold parseDate.
  destruct (split_spaces (trim raw) [] false) as [|p0 [|p1 ps]];
    [left; simpl; lia | left; simpl; lia |].
  cbn [nth].
  destruct (truthy (lookup MONTHS (toLowerCase host p0))) as [mn|] eqn:Em.
  - apply truthy_Some in Em.
    destruct (digitsOnly p1) as [|c day] eqn:Ed; cbn [truthy].
    + right. right. reflexivity.
    + exists mn. split; [exact Em|]. split; [eapply lookup_values; eauto|].
      split; [discriminate|]. split; [reflexivity|].
      apply padStart2_digits. rewrite <- Ed. unfold digitsOnly.
      apply forallb_forall. intros x Hx. now apply filter_In in Hx.
  - right. left.
    destruct (lookup MONTHS (toLowerCase host p0)) as [v|] eqn:El; auto.
    exfalso. pose proof (lookup_values _ _ _ El) as Hv.
    assert (Hne : v <> []).
    { simpl in Hv. repeat (destruct Hv as [<-|Hv]; [discriminate|]). contradiction. }
    destruct v; [congruence|discriminate].
Qed.


(** ** Risk state *)

Lemma leadingLosses_count (settled : list Position) (count : nat) :
  leadingLosses settled count = (count + leadingLosses settled 0)%nat.
Proof.
  revert count. induction settled as [|p rest IH]; intros count; simpl; [lia|].
  destruct (status p); try lia.
  rewrite (IH (S count)), (IH 1%nat). lia.
Qed.

Lemma breaker_step (vars : RiskVars) (c : RiskCall) :
  circuitBroken vars = (MAX_CONSECUTIVE_LOSSES <=? consecutiveLosses vars)%nat ->
  circuitBroken (riskCall vars c)
  = (MAX_CONSECUTIVE_LOSSES <=? consecutiveLosses (riskCall vars c))%nat.
Proof.
  intros H. destruct c as [[|]|]; cbn [riskCall onSettlement resetCircuitBreaker
                                         consecutiveLosses circuitBroken].
  - destruct (circuitBroken vars); reflexivity.
  - rewrite H. unfold MAX_CONSECUTIVE_LOSSES.
    destruct (3 <=? S (consecutiveLosses vars))%nat eqn:E; auto.
    apply Nat.leb_gt in E. apply Nat.leb_gt. lia.
  - reflexivity.
Qed.

Lemma breaker_after_calls (positions : list Position) (calls : list RiskCall) :
  circuitBroken (fold_left riskCall calls (initRiskState positions riskVarsAtLoad))
  = (MAX_CONSECUTIVE_LOSSES
     <=? consecutiveLosses
           (fold_left riskCall calls (initRiskState positions riskVarsAtLoad)))%nat.
Proof.
  assert (H : forall vars,
            circuitBroken vars = (MAX_CONSECUTIVE_LOSSES <=? consecutiveLosses vars)%nat ->
            circuitBroken (fold_left riskCall calls vars)
            = (MAX_CONSECUTIVE_LOSSES <=? consecutiveLosses (fold_left riskCall calls vars))%nat).
  { induction calls as [|c cs IH]; intros vars Hv; simpl; auto.
    apply IH. now apply breaker_step. }
  apply H. unfold initRiskState. cbn [circuitBroken consecutiveLosses riskVarsAtLoad].
  destruct (MAX_CONSECUTIVE_LOSSES <=? _)%nat; reflexivity.
Qed.

(** X19.  From start-up on -- [initRiskState] on the freshly loaded module, then
    any sequence of settlements and manual resets -- the circuit breaker is
    on exactly when at least three losses stand in a row. *)
Theorem circuit_breaker_invariant (positions : list Position) (calls : list RiskCall) :
  let vars := fold_left riskCall calls (initRiskState positions riskVarsAtLoad) in
  circuitBroken vars = true <-> (3 <= consecutiveLosses vars)%nat.
Proof.
  cbv zeta. rewrite breaker_after_calls. apply Nat.leb_le.
Qed.

(** X20.  Start-up reconstructs what the settlements left behind: on the freshly
    loaded module, [initRiskState] gives the state that calling
    [onSettlement] for every settled position, from the last row to the
    first, would have produced. *)
Theorem initRiskState_replays_settlements (positions : list Position) :
  initRiskState positions riskVarsAtLoad
  = fold_right (fun p vars => onSettlement (is_won (status p)) vars) riskVarsAtLoad
      (List.filter (fun p => match status p with
                             | st_won | st_lost => true
                             | _ => false
                             end) positions).
Proof.
  unfold initRiskState. cbn [circuitBroken riskVarsAtLoad].
  induction positions as [|p rest IH]; [reflexivity|].
  cbn [List.filter]. destruct (status p) eqn:Es; try exact IH.
  - (* won *)
    cbn [fold_right leadingLosses]. rewrite Es. cbn [is_won onSettlement].
    rewrite <- IH. cbn [consecutiveLosses circuitBroken].
    destruct (MAX_CONSECUTIVE_LOSSES <=? leadingLosses _ 0)%nat; reflexivity.
  - (* lost *)
    cbn [fold_right leadingLosses]. rewrite Es. cbn [is_won onSettlement].
    rewrite <- IH. cbn [consecutiveLosses circuitBroken].
    rewrite leadingLosses_count. cbn [Nat.add].
    unfold MAX_CONSECUTIVE_LOSSES.
    set (n := leadingLosses _ 0).
    destruct (3 <=? S n)%nat eqn:E; auto.
    apply Nat.leb_gt in E. replace (3 <=? n)%nat with false; auto.
    symmetry. apply Nat.leb_gt. lia.
Qed.

(** X21.  The settle-time filter of [generateSignals] is [isTooCloseToSettlement]
    at its default of two hours: no emitted signal is on a market that the
    risk module deems too close to settlement. *)
Theorem generateSignals_not_too_close host markets gfsEnsembles config openPositions
    ecmwfEnsembles (s : Signal) :
  In s (generateSignals host markets gfsEnsembles config openPositions ecmwfEnsembles) ->
  isTooCloseToSettlement host (endDateIso (sig_market s)) None = false.
Proof.
  unfold generateSignals. intros Hin.
  apply signalsFrom_In in Hin as (m & u & Hm & Hs).
  pose proof (signalFor_filters _ _ _ _ _ _ _ _ Hs) as (_ & _ & Ht & _).
  apply signalFor_inv in Hs as (g & c & _ & _ & _ & H). cbv zeta in H.
  destruct H as (_ & _ & _ & _ & _ & _ & _ & Hmk & _). rewrite Hmk.
  exact Ht.
Qed.

(** ** Paper execution and settlement *)




(** X22.  The two sides of a bracket never settle alike: whatever the observed
    temperature -- [NaN] included -- a YES position and a NO position on
    the same bracket have opposite outcomes, each won or lost. *)
Theorem evaluateOutcome_sides_opposite (yes no : Position) (actualTemp : num) :
  pos_side yes = YES -> pos_side no = NO ->
  pos_bracketType yes = pos_bracketType no ->
  pos_bracketMin yes = pos_bracketMin no ->
  pos_bracketMax yes = pos_bracketMax no ->
  (evaluateOutcome yes actualTemp = st_won /\ evaluateOutcome no actualTemp = st_lost)
  \/ (evaluateOutcome yes actualTemp = st_lost /\ evaluateOutcome no actualTemp = st_won).
Proof.
  unfold evaluateOutcome. intros -> -> -> -> ->.
  destruct (match pos_bracketType no with above => _ | below => _ | between => _ end);
    auto.
Qed.



(** ** Ensemble responses *)

Lemma celsiusToFahrenheit_fin (c : Q) :
  celsiusToFahrenheit (Fin c) = Fin (c * inject_Z 9 / inject_Z 5 + inject_Z 32).
Proof.
  unfold celsiusToFahrenheit, int, Num.of_Z. cbn [Num.mul].
  rewrite div_fin by discriminate. reflexivity.
Qed.

Lemma fold_max_fin (l : list num) : forall a,
  Forall Num.finite l ->
  exists m, fold_left Num.max l (Fin a) = Fin m /\ a <= m.
Proof.
  induction l as [|x l IH]; intros a Hl; simpl.
  - exists a. split; [reflexivity|lra].
  - inversion Hl as [|? ? Hx Hl']; subst. destruct x as [| |q|]; try contradiction.
    cbn [Num.max Num.leb]. destruct (Qle_bool_reflect a q) as [Hle|Hgt].
    + destruct (IH q Hl') as (m & -> & Hm). exists m. split; [reflexivity|lra].
    + destruct (IH a Hl') as (m & -> & Hm). exists m. split; [reflexivity|lra].
Qed.

Lemma fold_min_fin (l : list num) : forall a,
  Forall Num.finite l ->
  exists m, fold_left Num.min l (Fin a) = Fin m /\ m <= a.
Proof.
  induction l as [|x l IH]; intros a Hl; simpl.
  - exists a. split; [reflexivity|lra].
  - inversion Hl as [|? ? Hx Hl']; subst. destruct x as [| |q|]; try contradiction.
    cbn [Num.min Num.leb]. destruct (Qle_bool_reflect a q) as [Hle|Hgt].
    + destruct (IH a Hl') as (m & -> & Hm). exists m. split; [reflexivity|lra].
    + destruct (IH q Hl') as (m & -> & Hm). exists m. split; [reflexivity|lra].
Qed.

(** The extremes of a non-empty array of finite numbers. *)
Lemma Math_max_min_fin (temps : list num) :
  Forall Num.finite temps -> temps <> [] ->
  exists hi lo, Math_max temps = Fin hi /\ Math_min temps = Fin lo /\ lo <= hi.
Proof.
  intros Hl Hne. destruct temps as [|x l]; [congruence|].
  inversion Hl as [|? ? Hx Hl']; subst. destruct x as [| |q|]; try contradiction.
  unfold Math_max, Math_min. cbn [fold_left Num.max Num.min Num.leb].
  destruct (fold_max_fin l q Hl') as (hi & -> & Hhi).
  destruct (fold_min_fin l q Hl') as (lo & -> & Hlo).
  exists hi, lo. repeat split. lra.
Qed.

Lemma Math_round_le (lo hi : Q) :
  lo <= hi -> (Math_round (Fin lo) <= Math_round (Fin hi))%num.
Proof.
  intros H. unfold Math_round, Num.of_Z. constructor. rewrite <- Zle_Qle.
  apply Qfloor_resp_le. lra.
Qed.

(** What [extremes] returns for members whose values are finite. *)
Lemma extremes_wellformed (members : list (list num)) :
  Forall (Forall Num.finite) members ->
  let '(highs, lows) := extremes members in
  (length highs <= length members)%nat
  /\ Forall is_integer highs /\ Forall is_integer lows
  /\ Forall2 (fun h l => (l <= h)%num) highs lows.
Proof.
  induction 1 as [|temps rest Ht Hrest IH]; simpl.
  - repeat split; constructor.
  - destruct (extremes rest) as [hs ls]. destruct IH as (Hlen & Hh & Hl & Hhl).
    destruct (Nat.eqb (length temps) 0) eqn:E.
    + repeat split; auto.
    + assert (Hne : temps <> []).
      { intros ->. discriminate. }
      destruct (Math_max_min_fin temps Ht Hne) as (hi & lo & -> & -> & Hle).
      split; [simpl; lia|]. split; [|split].
      * constructor; auto. eexists. reflexivity.
      * constructor; auto. eexists. reflexivity.
      * constructor; auto. now apply Math_round_le.
Qed.

Lemma map_adjust_keys f date (byDate : DateMap) :
  List.map fst (map_adjust f date byDate) = List.map fst byDate.
Proof.
  induction byDate as [|[d v] rest IH]; simpl; auto.
  destruct (jsstring_eqb d date); simpl; congruence.
Qed.

Lemma map_adjust_values (P : list (list num) -> Prop) f date (byDate : DateMap) :
  (forall v, P v -> P (f v)) ->
  Forall (fun e => P (snd e)) byDate ->
  Forall (fun e => P (snd e)) (map_adjust f date byDate).
Proof.
  intros Hf. induction 1 as [|[d v] rest Hv Hrest IH]; simpl; [constructor|].
  destruct (jsstring_eqb d date); constructor; simpl in *; auto.
Qed.

Lemma map_has_In (byDate : DateMap) date :
  map_has byDate date = true <-> In date (List.map fst byDate).
Proof.
  induction byDate as [|[d v] rest IH]; simpl; [split; [discriminate|tauto]|].
  rewrite orb_true_iff, IH. unfold jsstring_eqb. rewrite bool_decide_eq_true. tauto.
Qed.

Lemma pushHour_finite series i members :
  Forall (Forall (fun v => match v with Some x => Num.finite x | None => True end)) series ->
  length members = length series /\ Forall (Forall Num.finite) members ->
  length (pushHour series i members) = length series
  /\ Forall (Forall Num.finite) (pushHour series i members).
Proof.
  unfold pushHour. intros Hs. revert members.
  induction Hs as [|s series Hsv Hs IH]; intros [|temps members] [Hlen Hm];
    simpl in *; try discriminate; try (split; [reflexivity|constructor]).
  inversion Hm as [|? ? Ht Hm']; subst.
  destruct (IH members) as [IHl IHf]; [split; [lia|assumption]|].
  split; [simpl; lia|]. constructor; auto.
  destruct (nth_error s i) as [[val|]|] eqn:En; auto.
  apply Forall_app. split; auto. constructor; [|constructor].
  apply nth_error_In in En. rewrite List.Forall_forall in Hsv. apply Hsv in En.
  destruct val; try contradiction. rewrite celsiusToFahrenheit_fin. exact I.
Qed.

Lemma groupHours_grouped series all_times : forall times i byDate,
  Forall (Forall (fun v => match v with Some x => Num.finite x | None => True end)) series ->
  (forall time, In time times -> In time all_times) ->
  grouped series all_times byDate ->
  grouped series all_times (groupHours series times i byDate).
Proof.
  induction times as [|time rest IH]; intros i byDate Hs Hin Hg; simpl; auto.
  apply IH; auto; [intros t Ht; apply Hin; now right|].
  set (date := firstn 10 time).
  set (byDate' := if map_has byDate date then byDate
                  else byDate ++ [(date, List.map (fun _ => []) series)]).
  assert (Hg' : grouped series all_times byDate').
  { subst byDate'. destruct (map_has byDate date) eqn:Eh; auto.
    destruct Hg as (Hnd & Hd & Hm). split; [|split].
    - rewrite map_app. simpl. apply NoDup_app. split; [exact Hnd|]. split.
      + intros x Hx Hk. apply list_elem_of_In in Hk. simpl in Hk.
        destruct Hk as [<-|[]].
        apply list_elem_of_In, map_has_In in Hx. congruence.
      + apply NoDup_singleton.
    - apply Forall_app. split; auto. constructor; [|constructor].
      exists time. split; [apply Hin; now left|reflexivity].
    - apply Forall_app. split; auto. constructor; [|constructor].
      simpl. split; [apply length_map|].
      clear. induction series; simpl; constructor; auto. }
  destruct Hg' as (Hnd & Hd & Hm). split; [|split].
  - now rewrite map_adjust_keys.
  - apply (proj1 (List.Forall_map fst
                    (fun d => exists time, In time all_times /\ d = firstn 10 time) _)).
    rewrite map_adjust_keys.
    apply (proj2 (List.Forall_map fst
                    (fun d => exists time, In time all_times /\ d = firstn 10 time) _)).
    exact Hd.
  - apply (map_adjust_values
             (fun v => length v = length series /\ Forall (Forall Num.finite) v)); auto.
    intros v Hv. now apply pushHour_finite.
Qed.

Lemma daily_dates (byDate : DateMap) :
  NoDup (List.map fst byDate) ->
  NoDup (List.map df_date (omap dailyOf byDate))
  /\ forall d, In d (List.map df_date (omap dailyOf byDate)) -> In d (List.map fst byDate).
Proof.
  induction byDate as [|[date members] rest IH]; intros Hnd; simpl.
  - split; [constructor|tauto].
  - apply NoDup_cons in Hnd as [Hnotin Hnd]. destruct (IH Hnd) as [IHn IHi].
    unfold dailyOf at 1 3. destruct (extremes members) as [hs ls].
    destruct (0 <? length hs)%nat; simpl.
    + split.
      * apply NoDup_cons. split; auto.
        intros Hin%list_elem_of_In%IHi. apply Hnotin. now apply list_elem_of_In.
      * intros d [<-|Hd]; auto.
    + split; auto.
Qed.

(** X25.  A parsed response is well formed.  When the values of the response are
    finite numbers, the daily entries carry pairwise distinct dates, each
    the first ten characters of one of the time stamps; every entry has at
    least one member and at most one per member series, as many lows as
    highs, whole-degree values, and no low above the high of the same
    member. *)
Theorem parseEnsembleResponse_wellformed (host : Host) (city : CityConfig)
    (hourly : OpenMeteoHourly) :
  Forall (fun kv => Forall (fun v => match v with
                                     | Some x => Num.finite x
                                     | None => True
                                     end) (snd kv)) (om_series hourly) ->
  let forecast := parseEnsembleResponse host city hourly in
  ef_city forecast = cc_slug city
  /\ NoDup (List.map df_date (daily forecast))
  /\ Forall (fun day =>
       (exists time, In time (om_time hourly) /\ df_date day = firstn 10 time)
       /\ highs day <> []
       /\ (length (highs day)
           <= length (List.filter (fun kv => isMemberKey (fst kv)) (om_series hourly)))%nat
       /\ Forall is_integer (highs day) /\ Forall is_integer (lows day)
       /\ Forall2 (fun h l => (l <= h)%num) (highs day) (lows day))
     (daily forecast).
Proof.
  intros Hfin. cbv zeta. unfold parseEnsembleResponse. cbn [ef_city daily].
  set (memberKeys := List.filter (fun kv => isMemberKey (fst kv)) (om_series hourly)).
  set (series := List.map snd memberKeys).
  assert (Hs : Forall (Forall (fun v => match v with
                                        | Some x => Num.finite x
                                        | None => True
                                        end)) series).
  { subst series memberKeys. apply List.Forall_map.
    rewrite List.Forall_forall in *. intros kv Hkv. apply filter_In in Hkv as [Hkv _].
    now apply Hfin. }
  assert (Hg : grouped series (om_time hourly) (groupHours series (om_time hourly) 0 [])).
  { apply groupHours_grouped; auto.
    split; [constructor|split; constructor]. }
  destruct Hg as (Hnd & Hd & Hm).
  split; [reflexivity|]. split; [apply daily_dates, Hnd|].
  assert (Hlen : length series = length memberKeys) by (subst series; apply length_map).
  rewrite <- Hlen. clear Hnd Hlen.
  induction (groupHours series (om_time hourly) 0 []) as [|[date members] rest IH];
    simpl; [constructor|].
  inversion Hd as [|? ? Hd1 Hd']; subst. inversion Hm as [|? ? Hm1 Hm']; subst.
  specialize (IH Hd' Hm'). simpl in Hd1, Hm1. destruct Hm1 as [Hl Hf].
  unfold dailyOf at 1. pose proof (extremes_wellformed members Hf) as He.
  destruct (extremes members) as [hs ls]. destruct He as (Hlen & Hh & Hlo & Hhl).
  destruct (0 <? length hs)%nat eqn:E; auto.
  constructor; auto. cbn [df_date highs lows].
  split; [exact Hd1|]. split.
  { intros ->. discriminate. }
  split; [lia|]. auto.
Qed.

(** ** Backtest *)


Lemma leb_fin_false (q r : Q) : r < q -> (Fin q <=? Fin r)%num = false.
Proof.
  intros H. cbn. destruct (Qle_bool_reflect q r); auto. lra.
Qed.



Lemma day_probability_fin (forecast : DailyForecast) (bt : BracketType) (lo hi : num) :
  exists p,
    match bt with
    | between => probability (calcBucketProbability forecast high lo hi)
    | above => calcAboveProbability forecast high lo
    | below => calcBelowProbability forecast high hi
    end = Fin p.
Proof.
  unfold calcAboveProbability, calcBelowProbability, calcBucketProbability.
  destruct (Nat.eqb (length (temps_of forecast high)) 0) eqn:E.
  - destruct bt; cbn [probability]; eauto.
  - apply Nat.eqb_neq in E.
    destruct bt; cbn [probability]; rewrite of_nat_div_fin by assumption; eauto.
Qed.

(** X27.  The backtest picks its side as the live edge calculation does.  On a
    market priced [price] for YES and [1 - price] for NO, with a
    non-negative [minEdgePct], the backtest trades a bracket exactly when
    [calculateEdge] finds an edge above [minEdgePct / 100], and then on the
    same side, at the same price and with the same edge; where the backtest
    passes, any edge that [calculateEdge] finds is at most
    [minEdgePct / 100]. *)
Theorem backtestTrade_selects_like_calculateEdge (config : AppConfig)
    (citySlug : jsstring) (forecast : DailyForecast) (actualHigh : num)
    (bracket : Bracket) (market : ParsedMarket) (ensemble : EnsembleForecast)
    (price minEdge : Q) :
  List.find (fun d => jsstring_eqb (df_date d) (date market)) (daily ensemble)
  = Some forecast ->
  metric market = high ->
  bracketType market = br_bracketType bracket ->
  bracketMin market = br_bracketMin bracket ->
  bracketMax market = br_bracketMax bracket ->
  syntheticPrice bracket = Fin price ->
  yesPrice market = Fin price -> noPrice market = Fin (1 - price) ->
  minEdgePct config = Fin minEdge -> 0 <= minEdge ->
  match backtestTrade config citySlug forecast actualHigh bracket with
  | Some trade =>
      exists r,
        calculateEdge market ensemble = Some r
        /\ er_side r = bt_side trade
        /\ (er_edge r == bt_edge trade)%num
        /\ (er_effectivePrice r == bt_entryPrice trade)%num
        /\ (Fin (minEdge / 100) < bt_edge trade)%num
  | None =>
      forall r, calculateEdge market ensemble = Some r ->
        (er_edge r <= Fin (minEdge / 100))%num
  end.
Proof.
  intros Hday Hmetric Hbt Hlo Hhi Hsp Hyes Hno Hmin Hnn.
  unfold calculateEdge, getModelProbability, backtestTrade.
  rewrite Hday, Hmetric, Hbt, Hlo, Hhi, Hyes, Hno, Hsp, Hmin.
  destruct (day_probability_fin forecast (br_bracketType bracket)
              (br_bracketMin bracket) (br_bracketMax bracket)) as [p Hp].
  assert (Hcalc : match br_bracketType bracket with
                  | above => Some (calcAboveProbability forecast high (br_bracketMin bracket))
                  | below => Some (calcBelowProbability forecast high (br_bracketMax bracket))
                  | between =>
                      Some (probability (calcBucketProbability forecast high
                                           (br_bracketMin bracket) (br_bracketMax bracket)))
                  end = Some (Fin p)).
  { rewrite <- Hp. destruct (br_bracketType bracket); reflexivity. }
  rewrite Hcalc, Hp. clear Hcalc Hp Hday.
  unfold int, Num.of_Z, Num.one, Num.zero, Num.sub, Num.gtb, Num.geb.
  cbn [Num.opp Num.add]. rewrite div_fin by discriminate.
  assert (H100 : minEdge / inject_Z 100 == minEdge / 100) by reflexivity.
  assert (Hm : 0 <= minEdge / inject_Z 100).
  { apply Qle_shift_div_l; [reflexivity|lra]. }
  set (m := minEdge / inject_Z 100) in *.
  cbn [Num.leb Num.ltb].
  repeat match goal with
         | |- context [Qle_bool ?x ?y] =>
             destruct (Qle_bool_reflect x y); cbn [andb negb]
         end;
    try (exfalso; unfold inject_Z in *; lra).
  all: try (eexists; split; [reflexivity|]; cbn [er_side er_edge er_effectivePrice
                                                  bt_side bt_edge bt_entryPrice Num.eq];
            split; [reflexivity|]; split; [unfold inject_Z; ring|];
            split; [unfold inject_Z; ring|];
            constructor; rewrite <- H100; fold m; unfold inject_Z in *; lra).
  all: intros r [= <-]; cbn [er_edge]; constructor; rewrite <- H100; fold m;
    unfold inject_Z in *; lra.
Qed.


(** ** The execution loop *)

(** X29.  The position cap.  The loop only appends to the open positions, at most
    one position per signal, and never while their number has reached
    [maxOpenPositions]: with a finite cap the final number is the initial
    one or stays below the cap plus one.  A cap of [NaN] -- what
    [Number(...)] makes of an unreadable setting -- never stops the loop:
    every signal is then executed. *)
Theorem executeSignals_position_cap {St : Type}
    (execute : St -> Signal -> St * result Position) (config : AppConfig)
    (signals : list Signal) (st : St) (openPositions : list Position) :
  let final := snd (executeSignals execute config signals st openPositions) in
  (exists opened, final = openPositions ++ opened
                  /\ (length opened <= length signals)%nat)
  /\ (forall cap : Q, maxOpenPositions config = Fin cap ->
      length final = length openPositions
      \/ inject_Z (Z.of_nat (length final)) < cap + 1)
  /\ (maxOpenPositions config = NaN ->
      (forall st' signal, exists position, snd (execute st' signal) = Returned position) ->
      length final = (length openPositions + length signals)%nat).
Proof.
  cbv zeta. split; [|split].
  - revert st openPositions.
    induction signals as [|signal rest IH]; intros st openPositions; simpl.
    + exists []. split; [now rewrite app_nil_r|auto].
    + destruct (_ >=? _)%num.
      * exists []. split; [now rewrite app_nil_r|simpl; lia].
      * destruct (execute st signal) as [st' [position|]].
        -- destruct (IH st' (openPositions ++ [position])) as (opened & -> & Hlen).
           exists (position :: opened). rewrite <- app_assoc. split; [reflexivity|].
           simpl. lia.
        -- destruct (IH st' openPositions) as (opened & -> & Hlen).
           exists opened. split; [reflexivity|lia].
  - intros cap Hcap. revert st openPositions.
    induction signals as [|signal rest IH]; intros st openPositions; simpl; auto.
    rewrite Hcap.
    destruct (_ >=? _)%num eqn:E; auto.
    destruct (execute st signal) as [st' [position|]]; [|apply IH].
    destruct (IH st' (openPositions ++ [position])) as [Hsame|Hlt]; auto.
    right. rewrite Hsame, length_app. simpl.
    unfold Num.geb, Num.of_nat, Num.of_Z in E. cbn in E.
    destruct (Qle_bool_reflect cap (inject_Z (Z.of_nat (length openPositions))))
      as [|Hgt]; [discriminate|].
    rewrite Nat2Z.inj_add, inject_Z_plus. change (inject_Z (Z.of_nat 1)) with 1. lra.
  - intros Hcap Hex. revert st openPositions.
    induction signals as [|signal rest IH]; intros st openPositions; simpl; [lia|].
    rewrite Hcap. cbn [Num.geb Num.leb].
    destruct (Hex st signal) as [position Hp].
    destruct (execute st signal) as [st' r]. simpl in Hp. subst r.
    rewrite IH, length_app. simpl. lia.
Qed.

(** X30.  Three losses in a row halt trading.  Whatever the history since
    start-up, a cycle that begins with at least three consecutive losses on
    record generates no signal and opens no position; with fewer, the
    circuit breaker lets the cycle through, and the signals are those of
    [generateSignals] unless the position cap is reached. *)
Theorem tradeCycle_halts_after_three_losses {St : Type}
    (execute : St -> Signal -> St * result Position) (host : Host)
    (positions : list Position) (calls : list RiskCall) (config : AppConfig)
    (parsedMarkets : list ParsedMarket)
    (gfsEnsembles ecmwfEnsembles : gmap jsstring EnsembleForecast)
    (st : St) (openPositions : list Position) :
  let vars := fold_left riskCall calls (initRiskState positions riskVarsAtLoad) in
  let cycle :=
    tradeCycle execute host vars config parsedMarkets gfsEnsembles ecmwfEnsembles
      st openPositions in
  ((3 <= consecutiveLosses vars)%nat -> cycle = (st, openPositions, []))
  /\ ((consecutiveLosses vars < 3)%nat ->
      ~ (maxOpenPositions config <= Num.of_nat (length openPositions))%num ->
      snd cycle
      = generateSignals host parsedMarkets gfsEnsembles config openPositions
          (Some ecmwfEnsembles)).
Proof.
  cbv zeta. unfold tradeCycle, checkRiskLimits. cbn [rs_circuitBroken].
  rewrite breaker_after_calls. unfold MAX_CONSECUTIVE_LOSSES. split.
  - intros H. apply Nat.leb_le in H. now rewrite H.
  - intros H Hcap. apply Nat.leb_gt in H. rewrite H.
    rewrite <- geb_le in Hcap. apply not_true_is_false in Hcap. rewrite Hcap.
    destruct (executeSignals _ _ _ _ _). reflexivity.
Qed.

(** ** The further theorems at the fixtures of the test suites *)


Lemma below_bucket_above_is_one_witness :
  temps_of FORECAST high <> []
  /\ Forall is_number (temps_of FORECAST high)
  /\ (deg 42 <= deg 44)%num
  /\ (calcBelowProbability FORECAST high (deg 42)
      + probability (calcBucketProbability FORECAST high (deg 42) (deg 44))
      + calcAboveProbability FORECAST high (deg 44) == Fin 1)%num.
Proof.
  assert (H1 : temps_of FORECAST high <> []) by discriminate.
  assert (H2 : Forall is_number (temps_of FORECAST high))
    by (repeat constructor; discriminate).
  assert (H3 : (deg 42 <= deg 44)%num) by (apply leb_le; reflexivity).
  exact (conj H1 (conj H2 (conj H3
           (below_bucket_above_is_one FORECAST high (deg 42) (deg 44) H1 H2 H3)))).
Defined.

Lemma threshold_monotone_witness :
  (deg 42 <= deg 43)%num
  /\ (calcAboveProbability FORECAST high (deg 43)
      <= calcAboveProbability FORECAST high (deg 42))%num.
Proof.
  assert (H : (deg 42 <= deg 43)%num) by (apply leb_le; reflexivity).
  exact (conj H (proj1 (threshold_monotone FORECAST high (deg 42) (deg 43) H))).
Defined.

Lemma calcBucketProbability_whole_degrees_witness :
  Forall is_integer (temps_of FORECAST high)
  /\ Counts (fun v => (Num.of_Z 42 <= v)%num /\ (v <= Num.of_Z 43)%num)
       (temps_of FORECAST high)
       (memberCount (calcBucketProbability FORECAST high (Num.of_Z 42)
                       (Num.of_Z 43 + Num.one)%num)).
Proof.
  assert (H : Forall is_integer (temps_of FORECAST high))
    by (repeat (constructor; [eexists; reflexivity|]); constructor).
  exact (conj H (calcBucketProbability_whole_degrees FORECAST high 42 43 H)).
Defined.




Lemma calculateConsensus_tier_by_counts_witness :
  exists r,
    calculateConsensus ENSEMBLE (Some ENSEMBLE) (Some (deg 50)) (str "2026-02-17")
      high between (deg 42) (deg 44) = Some r
    /\ (modelsConsulted (ecmwfProbability r)
          (nwsInBracket (Some (deg 50)) high between (deg 42) (deg 44)) <= 3)%nat.
Proof.
  destruct (calculateConsensus ENSEMBLE (Some ENSEMBLE) (Some (deg 50))
              (str "2026-02-17") high between (deg 42) (deg 44)) as [r|] eqn:E;
    [|vm_compute in E; discriminate].
  exists r. split; [reflexivity|].
  exact (proj1 (proj2 (calculateConsensus_tier_by_counts ENSEMBLE (Some ENSEMBLE)
                         (str "2026-02-17") high between (deg 42) (deg 44)
                         (Some (deg 50)) r E))).
Defined.

Lemma calculateConsensus_without_tiebreaker_witness :
  exists r,
    calculateConsensus ENSEMBLE (Some ENSEMBLE) None (str "2026-02-17")
      high between (deg 42) (deg 44) = Some r
    /\ confidence r <> SKIP.
Proof.
  destruct (calculateConsensus ENSEMBLE (Some ENSEMBLE) None
              (str "2026-02-17") high between (deg 42) (deg 44)) as [r|] eqn:E;
    [|vm_compute in E; discriminate].
  exists r. split; [reflexivity|].
  exact (proj1 (calculateConsensus_without_tiebreaker ENSEMBLE (Some ENSEMBLE)
                  (str "2026-02-17") high between (deg 42) (deg 44) r E)).
Defined.



Lemma matchCity_first_alias_witness :
  ~ In (toLowerCase hostA (trim (str "New York City"))) Object_prototype_keys
  /\ forall slug, matchCity hostA (str "New York City") = Some slug ->
       In slug [str "nyc"; str "chicago"; str "miami"; str "atlanta";
                str "seattle"; str "dallas"].
Proof.
  assert (H : ~ In (toLowerCase hostA (trim (str "New York City")))
                Object_prototype_keys).
  { vm_compute. intros H. repeat (destruct H as [H|H]; [discriminate H|]). exact H. }
  exact (conj H (proj1 (proj2 (proj2 (matchCity_first_alias hostA
                                         (str "New York City") H))))).
Defined.

Lemma parseDate_format_witness :
  ~ In (toLowerCase hostA
          (nth 0 (split_spaces (trim (str "February 16")) [] false) []))
       Object_prototype_keys
  /\ match parseDate hostA (str "February 16") with
     | Some iso =>
         exists monthNum,
           lookup MONTHS
             (toLowerCase hostA
                (nth 0 (split_spaces (trim (str "February 16")) [] false) []))
           = Some monthNum
           /\ In monthNum (List.map snd MONTHS)
           /\ digitsOnly (nth 1 (split_spaces (trim (str "February 16")) [] false) [])
              <> []
           /\ iso = show_N (Date_fullYear hostA) ++ str "-" ++ monthNum ++ str "-"
                    ++ padStart2
                         (digitsOnly
                            (nth 1 (split_spaces (trim (str "February 16")) [] false) []))
           /\ forallb is_digit
                (padStart2
                   (digitsOnly
                      (nth 1 (split_spaces (trim (str "February 16")) [] false) [])))
              = true
           /\ (2 <= length
                      (padStart2
                         (digitsOnly
                            (nth 1 (split_spaces (trim (str "February 16")) [] false)
                               []))))%nat
     | None =>
         (length (split_spaces (trim (str "February 16")) [] false) < 2)%nat
         \/ lookup MONTHS
              (toLowerCase hostA
                 (nth 0 (split_spaces (trim (str "February 16")) [] false) []))
            = None
         \/ digitsOnly (nth 1 (split_spaces (trim (str "February 16")) [] false) []) = []
     end.
Proof.
  assert (H : ~ In (toLowerCase hostA
                      (nth 0 (split_spaces (trim (str "February 16")) [] false) []))
                Object_prototype_keys).
  { vm_compute. intros H. repeat (destruct H as [H|H]; [discriminate H|]). exact H. }
  exact (conj H (parseDate_format hostA (str "February 16") H)).
Defined.


Lemma generateSignals_not_too_close_witness :
  exists s,
    In s (generateSignals hostA [marketNo] fixtureEnsembles DEFAULT_CONFIG [] None)
    /\ isTooCloseToSettlement hostA (endDateIso (sig_market s)) None = false.
Proof.
  destruct (generateSignals hostA [marketNo] fixtureEnsembles DEFAULT_CONFIG [] None)
    as [|s l] eqn:E; [vm_compute in E; discriminate|].
  assert (Hin : In s (generateSignals hostA [marketNo] fixtureEnsembles
                        DEFAULT_CONFIG [] None))
    by (rewrite E; left; reflexivity).
  exists s. split; [rewrite <- E; exact Hin|].
  exact (generateSignals_not_too_close hostA [marketNo] fixtureEnsembles
           DEFAULT_CONFIG [] None s Hin).
Defined.

Lemma evaluateOutcome_sides_opposite_witness :
  pos_side (executePaper hostA 0 (dollarSignal YES)) = YES
  /\ pos_side (executePaper hostA 1 (dollarSignal NO)) = NO
  /\ ((evaluateOutcome (executePaper hostA 0 (dollarSignal YES)) (deg 43) = st_won
       /\ evaluateOutcome (executePaper hostA 1 (dollarSignal NO)) (deg 43) = st_lost)
      \/ (evaluateOutcome (executePaper hostA 0 (dollarSignal YES)) (deg 43) = st_lost
          /\ evaluateOutcome (executePaper hostA 1 (dollarSignal NO)) (deg 43) = st_won)).
Proof.
  assert (H1 : pos_side (executePaper hostA 0 (dollarSignal YES)) = YES) by reflexivity.
  assert (H2 : pos_side (executePaper hostA 1 (dollarSignal NO)) = NO) by reflexivity.
  exact (conj H1 (conj H2
           (evaluateOutcome_sides_opposite (executePaper hostA 0 (dollarSignal YES))
              (executePaper hostA 1 (dollarSignal NO)) (deg 43)
              H1 H2 eq_refl eq_refl eq_refl))).
Defined.



Lemma parseEnsembleResponse_wellformed_witness :
  Forall (fun kv => Forall (fun v => match v with
                                     | Some x => Num.finite x
                                     | None => True
                                     end) (snd kv)) (om_series sampleHourly)
  /\ NoDup (List.map df_date (daily (parseEnsembleResponse hostA NYC sampleHourly))).
Proof.
  assert (H : Forall (fun kv => Forall (fun v => match v with
                                                 | Some x => Num.finite x
                                                 | None => True
                                                 end) (snd kv)) (om_series sampleHourly))
    by (repeat constructor).
  exact (conj H (proj1 (proj2 (parseEnsembleResponse_wellformed hostA NYC
                                 sampleHourly H)))).
Defined.


Lemma backtestTrade_selects_like_calculateEdge_witness :
  List.find (fun d => jsstring_eqb (df_date d)
                        (date (makeMarket (Fin (1 # 7)) (Fin (1 - (1 # 7))))))
    (daily ENSEMBLE)
  = Some (makeForecast HIGHS (str "2026-02-17"))
  /\ minEdgePct DEFAULT_CONFIG = Fin (inject_Z 8)
  /\ 0 <= inject_Z 8
  /\ match backtestTrade DEFAULT_CONFIG (str "nyc")
             (makeForecast HIGHS (str "2026-02-17")) (deg 43) sampleBracket with
     | Some trade =>
         exists r,
           calculateEdge (makeMarket (Fin (1 # 7)) (Fin (1 - (1 # 7)))) ENSEMBLE = Some r
           /\ er_side r = bt_side trade
           /\ (er_edge r == bt_edge trade)%num
           /\ (er_effectivePrice r == bt_entryPrice trade)%num
           /\ (Fin (inject_Z 8 / 100) < bt_edge trade)%num
     | None =>
         forall r,
           calculateEdge (makeMarket (Fin (1 # 7)) (Fin (1 - (1 # 7)))) ENSEMBLE = Some r ->
           (er_edge r <= Fin (inject_Z 8 / 100))%num
     end.
Proof.
  assert (H1 : List.find (fun d => jsstring_eqb (df_date d)
                                     (date (makeMarket (Fin (1 # 7)) (Fin (1 - (1 # 7))))))
                 (daily ENSEMBLE)
               = Some (makeForecast HIGHS (str "2026-02-17"))) by reflexivity.
  assert (H2 : minEdgePct DEFAULT_CONFIG = Fin (inject_Z 8)) by reflexivity.
  assert (H3 : 0 <= inject_Z 8) by discriminate.
  exact (conj H1 (conj H2 (conj H3
           (backtestTrade_selects_like_calculateEdge DEFAULT_CONFIG (str "nyc")
              (makeForecast HIGHS (str "2026-02-17")) (deg 43) sampleBracket
              (makeMarket (Fin (1 # 7)) (Fin (1 - (1 # 7)))) ENSEMBLE
              (1 # 7) (inject_Z 8)
              H1 eq_refl eq_refl eq_refl eq_refl eq_refl eq_refl eq_refl H2 H3)))).
Defined.

